(** * CPU voxel ray tracer (Amanatides-Woo 3D DDA): a shallow embedding of
    [src/main.c] and the properties of its specification.

    The C program computes in IEEE-754 binary32 ([float]) and in [int].
    Floats are modelled bit-exactly with the Standard Library's executable
    specification of IEEE arithmetic ([SpecFloat], precision 24, maximal
    exponent 128); [int] values are modelled in [Z] (every [int] the
    program computes stays far inside the 32-bit range).  Arrays are lists
    read and written by index. *)

From Stdlib Require Import ZArith Lia Bool List SpecFloat Ring.
From stdpp Require Import base option list.
Import ListNotations.

Local Open Scope Z_scope.

(** ** IEEE-754 binary32 *)

Module F32.

Definition prec : Z := 24.
Definition emax : Z := 128.

Definition float : Type := spec_float.

Definition add : float -> float -> float := SFadd prec emax.
Definition sub : float -> float -> float := SFsub prec emax.
Definition mul : float -> float -> float := SFmul prec emax.
Definition div : float -> float -> float := SFdiv prec emax.
Definition sqrt : float -> float := SFsqrt prec emax.
Definition opp : float -> float := SFopp.
Definition abs : float -> float := SFabs.

(** C comparisons: [a < b] is [ltb a b], [a > b] is [ltb b a]; every
    comparison with a NaN is false. *)
Definition ltb : float -> float -> bool := SFltb.
Definition leb : float -> float -> bool := SFleb.
Definition eqb : float -> float -> bool := SFeqb.

Definition is_nan (x : float) : bool :=
  match x with S754_nan => true | _ => false end.

Definition is_finite (x : float) : bool :=
  match x with S754_zero _ | S754_finite _ _ _ => true | _ => false end.

Definition is_zero (x : float) : bool :=
  match x with S754_zero _ => true | _ => false end.

(** The sign bit of a number ([false] for a NaN). *)
Definition signbit (x : float) : bool :=
  match x with
  | S754_zero s | S754_infinity s | S754_finite s _ _ => s
  | S754_nan => false
  end.

(** A well-formed binary32 datum: the mantissa is canonical for the
    exponent and the exponent is in range. *)
Definition valid (x : float) : bool := valid_binary prec emax x.

Definition pzero : float := S754_zero false.

(** Decoding of a 32-bit pattern (sign, 8 exponent bits, 23 fraction
    bits); float literals of the source are given by their pattern. *)
Definition of_bits (b : Z) : float :=
  let s := Z.testbit b 31 in
  let ex := Z.land (Z.shiftr b 23) 255 in
  let fr := Z.land b 8388607 in
  if ex =? 255 then (if fr =? 0 then S754_infinity s else S754_nan)
  else if ex =? 0 then
    match fr with
    | Zpos m => S754_finite s m (-149)
    | _ => S754_zero s
    end
  else
    match fr + 8388608 with
    | Zpos m => S754_finite s m (ex - 150)
    | _ => S754_nan
    end.

(** [(float) n] for an [int] n: round to nearest, ties to even. *)
Definition of_int (n : Z) : float := binary_normalize prec emax n 0 false.

(** [fmaxf] and [fminf]: a NaN argument is ignored; of two equal
    arguments (zeros of either sign) the first is returned, as glibc
    does. *)
Definition fmaxf (x y : float) : float :=
  if is_nan x then y
  else if is_nan y then x
  else if ltb x y then y else x.

Definition fminf (x y : float) : float :=
  if is_nan x then y
  else if is_nan y then x
  else if ltb y x then y else x.

Definition fabsf : float -> float := abs.

(** The integer [floor] of a finite number. *)
Definition floor_Z (s : bool) (m : positive) (e : Z) : Z :=
  Z.shiftl (cond_Zopp s (Zpos m)) e.

(** [floorf]: zeros, infinities and NaN are returned unchanged; the
    floor of a binary32 number is a binary32 number, so the conversion
    back is exact. *)
Definition floorf (x : float) : float :=
  match x with
  | S754_finite s m e =>
      if 0 <=? e then x
      else match floor_Z s m e with
           | Z0 => S754_zero s
           | n => of_int n
           end
  | _ => x
  end.

(** Truncation toward zero of a finite number. *)
Definition trunc_Z (s : bool) (m : positive) (e : Z) : Z :=
  cond_Zopp s (Z.shiftl (Zpos m) e).

Definition int_min : Z := -2147483648.
Definition int_max : Z := 2147483647.

(** [(int) x].  C11 6.3.1.4 defines the conversion only when the
    truncated value fits [int]; for the remaining arguments (NaN,
    infinities, large magnitudes) [oob x] stands for whatever the
    platform delivers. *)
Definition to_int (oob : float -> Z) (x : float) : Z :=
  match x with
  | S754_zero _ => 0
  | S754_finite s m e =>
      let n := trunc_Z s m e in
      if (int_min <=? n) && (n <=? int_max) then n else oob x
  | _ => oob x
  end.

End F32.

Abbreviation float := F32.float.

(** Float literals of the source, by bit pattern. *)
Module Lit.
Definition f_0 : float := F32.pzero.                       (* 0.0f *)
Definition f_1 : float := F32.of_bits 0x3f800000.          (* 1.0f *)
Definition f_2 : float := F32.of_bits 0x40000000.          (* 2.0f *)
Definition f_m1 : float := F32.of_bits 0xbf800000.         (* -1.0f *)
Definition f_m2 : float := F32.of_bits 0xc0000000.         (* -2.0f *)
Definition f_3 : float := F32.of_bits 0x40400000.          (* 3.0f *)
Definition f_0_5 : float := F32.of_bits 0x3f000000.        (* 0.5f *)
Definition f_1_5 : float := F32.of_bits 0x3fc00000.        (* 1.5f *)
Definition f_8_5 : float := F32.of_bits 0x41080000.        (* 8.5f *)
Definition f_18 : float := F32.of_bits 0x41900000.         (* 18.0f *)
Definition f_55 : float := F32.of_bits 0x425c0000.         (* 55.0f *)
Definition f_180 : float := F32.of_bits 0x43340000.        (* 180.0f *)
Definition f_255 : float := F32.of_bits 0x437f0000.        (* 255.0f *)
Definition f_pi : float := F32.of_bits 0x40490fdb.         (* 3.14159265358979323846f *)
Definition f_1em6 : float := F32.of_bits 0x358637bd.       (* 1e-6f *)
Definition f_1e30 : float := F32.of_bits 0x7149f2ca.       (* 1e30f *)
Definition f_m1e30 : float := F32.of_bits 0xf149f2ca.      (* -1e30f *)
Definition f_0_15 : float := F32.of_bits 0x3e19999a.       (* 0.15f *)
Definition f_0_18 : float := F32.of_bits 0x3e3851ec.       (* 0.18f *)
Definition f_0_2 : float := F32.of_bits 0x3e4ccccd.        (* 0.2f, 0.20f *)
Definition f_0_28 : float := F32.of_bits 0x3e8f5c29.       (* 0.28f *)
Definition f_0_3 : float := F32.of_bits 0x3e99999a.        (* 0.3f, 0.30f *)
Definition f_0_33 : float := F32.of_bits 0x3ea8f5c3.       (* 0.33f *)
Definition f_0_35 : float := F32.of_bits 0x3eb33333.       (* 0.35f *)
Definition f_0_45 : float := F32.of_bits 0x3ee66666.       (* 0.45f *)
Definition f_0_5_5 : float := F32.of_bits 0x3f0ccccd.      (* 0.55f *)
Definition f_0_6 : float := F32.of_bits 0x3f19999a.        (* 0.6f *)
Definition f_0_65 : float := F32.of_bits 0x3f266666.       (* 0.65f *)
Definition f_0_7 : float := F32.of_bits 0x3f333333.        (* 0.7f *)
Definition f_0_75 : float := F32.of_bits 0x3f400000.       (* 0.75f *)
Definition f_0_8 : float := F32.of_bits 0x3f4ccccd.        (* 0.8f *)
Definition f_0_95 : float := F32.of_bits 0x3f733333.       (* 0.95f *)
Definition f_light_x : float := F32.of_bits 0x3eeea2b0.    (* 0.46608496f *)
Definition f_light_y : float := F32.of_bits 0x3f58f0fd.    (* 0.8474272f *)
Definition f_light_z : float := F32.of_bits 0x3e822a32.    (* 0.25422817f *)
Definition f_1em5 : float := F32.of_bits 0x3727c5ac.       (* 1e-5f *)
Definition f_0_25 : float := F32.of_bits 0x3e800000.       (* 0.25f *)
Definition f_0_1 : float := F32.of_bits 0x3dcccccd.        (* 0.1f *)
Definition f_0_9 : float := F32.of_bits 0x3f666666.        (* 0.9f *)
Definition f_1000 : float := F32.of_bits 0x447a0000.       (* 1000.0f *)
End Lit.

(** ** Scalars and vectors

    The vector helpers only add, subtract and multiply components, so they
    are written once over a scalar interface: the program instantiates it
    with binary32, and the algebraic statements about ray generation
    instantiate it with an exact ring. *)

Class Scalar (F : Type) : Type := {
  sc_add : F -> F -> F;
  sc_sub : F -> F -> F;
  sc_mul : F -> F -> F;
  sc_of_int : Z -> F
}.

#[global] Instance f32_scalar : Scalar float := {|
  sc_add := F32.add;
  sc_sub := F32.sub;
  sc_mul := F32.mul;
  sc_of_int := F32.of_int
|}.

#[global] Instance Z_scalar : Scalar Z := {|
  sc_add := Z.add;
  sc_sub := Z.sub;
  sc_mul := Z.mul;
  sc_of_int := fun n => n
|}.

Record Vector3 (F : Type) : Type := mkV3 { vx : F; vy : F; vz : F }.
Arguments mkV3 {F} _ _ _.
Arguments vx {F} _.
Arguments vy {F} _.
Arguments vz {F} _.

Record IVec3 : Type := mkIV3 { ix : Z; iy : Z; iz : Z }.

(** [raymath.h] belongs to raylib, not to the repository; these are its
    definitions of the helpers [main.c] calls. *)
Section Raymath.
Context {F : Type} `{Scalar F}.

Definition Vector3Add (a b : Vector3 F) : Vector3 F :=
  mkV3 (sc_add (vx a) (vx b)) (sc_add (vy a) (vy b)) (sc_add (vz a) (vz b)).

Definition Vector3Subtract (a b : Vector3 F) : Vector3 F :=
  mkV3 (sc_sub (vx a) (vx b)) (sc_sub (vy a) (vy b)) (sc_sub (vz a) (vz b)).

Definition Vector3Scale (v : Vector3 F) (k : F) : Vector3 F :=
  mkV3 (sc_mul (vx v) k) (sc_mul (vy v) k) (sc_mul (vz v) k).

Definition Vector3DotProduct (a b : Vector3 F) : F :=
  sc_add (sc_add (sc_mul (vx a) (vx b)) (sc_mul (vy a) (vy b)))
         (sc_mul (vz a) (vz b)).

Definition Vector3CrossProduct (a b : Vector3 F) : Vector3 F :=
  mkV3 (sc_sub (sc_mul (vy a) (vz b)) (sc_mul (vz a) (vy b)))
       (sc_sub (sc_mul (vz a) (vx b)) (sc_mul (vx a) (vz b)))
       (sc_sub (sc_mul (vx a) (vy b)) (sc_mul (vy a) (vx b))).
End Raymath.

Definition Vector3Normalize (v : Vector3 float) : Vector3 float :=
  let length :=
    F32.sqrt (F32.add (F32.add (F32.mul (vx v) (vx v)) (F32.mul (vy v) (vy v)))
                      (F32.mul (vz v) (vz v))) in
  if negb (F32.eqb length Lit.f_0) then
    let ilength := F32.div Lit.f_1 length in
    mkV3 (F32.mul (vx v) ilength) (F32.mul (vy v) ilength) (F32.mul (vz v) ilength)
  else v.

(** ** Configuration constants, records and application state *)

Definition IMG_W : Z := 320.
Definition IMG_H : Z := 180.
Definition GRID_X : Z := 24.
Definition GRID_Y : Z := 16.
Definition GRID_Z : Z := 24.
Definition GRID_SIZE : Z := GRID_X * GRID_Y * GRID_Z.

Record FrameStats : Type := mkFrameStats {
  rays : Z;
  rays_entered_grid : Z;
  hits : Z;
  total_steps : Z;
  max_steps : Z;
  avg_steps_per_ray : float;
  hit_ratio : float;
  rays_per_sec : float;
  steps_per_sec : float
}.

Record TraceResult : Type := mkTraceResult {
  hit : bool;
  entered_grid : bool;
  steps : Z;
  col : Vector3 float
}.

(** raylib's [Color] (four [unsigned char]) and the handle part of its
    [Texture2D]. *)
Record Color : Type := mkColor { cr : Z; cg : Z; cb : Z; ca : Z }.
Record Texture2D : Type := mkTexture2D { tex_id : Z; tex_width : Z; tex_height : Z }.

(** [voxels] holds [uint8_t] material ids (0 = empty), [pixels] the CPU
    render target; both arrays have a fixed length in C ([GRID_SIZE] and
    [IMG_W * IMG_H]). *)
Record AppState : Type := mkAppState {
  ray_texture : Texture2D;
  pixels : list Color;
  voxels : list Z;
  time_s : float;
  freeze_camera : bool;
  request_quit : bool;
  frame_stats : FrameStats;
  frame_ms : float;
  fps_smooth : float
}.

Definition LIGHT_DIR : Vector3 float :=
  mkV3 Lit.f_light_x Lit.f_light_y Lit.f_light_z.

Definition clamp_i32 (v lo hi : Z) : Z :=
  if v <? lo then lo else if v >? hi then hi else v.

Definition clamp_f32 (v lo hi : float) : float :=
  if F32.ltb v lo then lo else if F32.ltb hi v then hi else v.

Definition voxel_index (x y z : Z) : Z :=
  x + y * GRID_X + z * GRID_X * GRID_Y.

Definition inside_grid (x y z : Z) : bool :=
  (x >=? 0) && (x <? GRID_X) && (y >=? 0) && (y <? GRID_Y) && (z >=? 0) && (z <? GRID_Z).

(** The array store [voxels[i] = value]. *)
Definition store_voxel (vox : list Z) (i : Z) (value : Z) : list Z :=
  <[Z.to_nat i := value]> vox.

Definition set_voxel (g : AppState) (x y z : Z) (value : Z) : AppState :=
  if inside_grid x y z then
    mkAppState (ray_texture g) (pixels g)
               (store_voxel (voxels g) (voxel_index x y z) value)
               (time_s g) (freeze_camera g) (request_quit g)
               (frame_stats g) (frame_ms g) (fps_smooth g)
  else g.

(** The value read back for the cell [(x, y, z)]. *)
Definition get_voxel (vox : list Z) (x y z : Z) : option Z :=
  vox !! Z.to_nat (voxel_index x y z).

Definition with_voxels (g : AppState) (vox : list Z) : AppState :=
  mkAppState (ray_texture g) (pixels g) vox (time_s g) (freeze_camera g)
             (request_quit g) (frame_stats g) (frame_ms g) (fps_smooth g).

Definition with_pixels (g : AppState) (px : list Color) : AppState :=
  mkAppState (ray_texture g) px (voxels g) (time_s g) (freeze_camera g)
             (request_quit g) (frame_stats g) (frame_ms g) (fps_smooth g).

(** [for (int i = lo; i < lo + n; i++) body(i)] over a threaded state. *)
Fixpoint for_range {St : Type} (lo : Z) (n : nat) (body : Z -> St -> St) (s : St) : St :=
  match n with
  | O => s
  | S n' => for_range (lo + 1) n' body (body lo s)
  end.

Definition build_scene (g : AppState) : AppState :=
  let g := with_voxels g (replicate (Z.to_nat GRID_SIZE) 0) in
  let g := for_range 0 (Z.to_nat GRID_Z) (fun z =>
             for_range 0 (Z.to_nat GRID_X) (fun x g => set_voxel g x 0 z 1)) g in
  let g := for_range 1 5 (fun y g =>
             let g := set_voxel g 8 y 8 2 in
             let g := set_voxel g 9 y 8 2 in
             let g := set_voxel g 8 y 9 2 in
             set_voxel g 9 y 9 2) g in
  let g := for_range 1 3 (fun y =>
             for_range 14 5 (fun x g => set_voxel g x y 14 3)) g in
  for_range 1 7 (fun y g => set_voxel g 17 y 6 4) g.

Definition sample_voxel_color (id : Z) : Vector3 float :=
  match id with
  | 1 => mkV3 Lit.f_0_28 Lit.f_0_3 Lit.f_0_33
  | 2 => mkV3 Lit.f_0_95 Lit.f_0_3 Lit.f_0_18
  | 3 => mkV3 Lit.f_0_15 Lit.f_0_75 Lit.f_0_35
  | 4 => mkV3 Lit.f_0_2 Lit.f_0_45 Lit.f_0_95
  | _ => mkV3 Lit.f_1 Lit.f_1 Lit.f_1
  end.

(** ** Instrumented evaluation

    Two safety statements of the specification are about what the code
    does on the way to its result: which divisions it performs and which
    array elements it reads.  The traversal functions therefore run in a
    small logging monad that records every division by a direction
    component and every load from the voxel array. *)

Inductive event : Type :=
| EvDiv (num den : float)
| EvLoad (index : Z).

Definition Tr (A : Type) : Type := (A * list event)%type.

#[global] Instance Tr_ret : MRet Tr := fun A a => (a, []).
#[global] Instance Tr_bind : MBind Tr :=
  fun A B f m => let '(b, l) := f (fst m) in (b, snd m ++ l).

Definition result {A : Type} (m : Tr A) : A := fst m.
Definition events {A : Type} (m : Tr A) : list event := snd m.

(** [num / den], logged. *)
Definition fdiv (num den : float) : Tr float :=
  (F32.div num den, [EvDiv num den]).

(** [g_state.voxels[i]], logged; the model reads 0 where C would read
    outside the array. *)
Definition load_voxel (vox : list Z) (i : Z) : Tr Z :=
  (default 0 (vox !! Z.to_nat i), [EvLoad i]).

(** ** Ray against the grid box *)

(** [axis_slab]: the running interval is passed in and returned, as the C
    function receives and updates it through [tmin] and [tmax]. *)
Definition axis_slab (orig dir mn mx tmin tmax : float) : Tr (bool * (float * float)) :=
  if F32.ltb (F32.fabsf dir) Lit.f_1em6 then
    mret (negb (F32.ltb orig mn || F32.ltb mx orig), (tmin, tmax))
  else
    inv ← fdiv Lit.f_1 dir;
    let t_a := F32.mul (F32.sub mn orig) inv in
    let t_b := F32.mul (F32.sub mx orig) inv in
    let '(t_a, t_b) := if F32.ltb t_b t_a then (t_b, t_a) else (t_a, t_b) in
    mret (true, (F32.fmaxf tmin t_a, F32.fminf tmax t_b)).

(** [ray_aabb]: [Some (t0, t1)] when the C function returns [true] and
    stores [*out_t0 = t0], [*out_t1 = t1]; [None] when it returns [false]
    (nothing is stored). *)
Definition ray_aabb (ro rd : Vector3 float) : Tr (option (float * float)) :=
  let tmin := Lit.f_m1e30 in
  let tmax := Lit.f_1e30 in
  '(ok, (tmin, tmax)) ← axis_slab (vx ro) (vx rd) Lit.f_0 (F32.of_int GRID_X) tmin tmax;
  if negb ok then mret None else
  '(ok, (tmin, tmax)) ← axis_slab (vy ro) (vy rd) Lit.f_0 (F32.of_int GRID_Y) tmin tmax;
  if negb ok then mret None else
  '(ok, (tmin, tmax)) ← axis_slab (vz ro) (vz rd) Lit.f_0 (F32.of_int GRID_Z) tmin tmax;
  if negb ok then mret None else
  if F32.ltb tmax (F32.fmaxf tmin Lit.f_0) then mret None
  else mret (Some (tmin, tmax)).

(** ** Amanatides-Woo traversal *)

(** What the C library and the target contribute: the [libm] functions
    the renderer calls and the result of an [int] conversion the C
    standard leaves undefined. *)
Record Platform : Type := mkPlatform {
  cosf : float -> float;
  sinf : float -> float;
  tanf : float -> float;
  int_oob : float -> Z
}.

Inductive axis : Type := AxisX | AxisY | AxisZ.

(** The variables the DDA loop updates. *)
Record Dda : Type := mkDda {
  cell_x : Z;
  cell_y : Z;
  cell_z : Z;
  t_cur : float;
  t_max_x : float;
  t_max_y : float;
  t_max_z : float;
  normal : IVec3;
  nsteps : Z
}.

(** The per-ray values the loop only reads. *)
Record DdaRay : Type := mkDdaRay {
  step : IVec3;
  t_delta_x : float;
  t_delta_y : float;
  t_delta_z : float;
  t_exit : float;
  dir_y : float
}.

Definition t_max_of (s : Dda) (a : axis) : float :=
  match a with
  | AxisX => t_max_x s
  | AxisY => t_max_y s
  | AxisZ => t_max_z s
  end.

(** The branch taken by the [if / else if / else] of lines 281-296. *)
Definition dda_axis (s : Dda) : axis :=
  if F32.ltb (t_max_x s) (t_max_y s) && F32.ltb (t_max_x s) (t_max_z s) then AxisX
  else if F32.ltb (t_max_y s) (t_max_z s) then AxisY
  else AxisZ.

(** The body of the branch taken. *)
Definition dda_advance (r : DdaRay) (s : Dda) : Dda :=
  match dda_axis s with
  | AxisX =>
      mkDda (cell_x s + ix (step r)) (cell_y s) (cell_z s)
            (t_max_x s)
            (F32.add (t_max_x s) (t_delta_x r)) (t_max_y s) (t_max_z s)
            (mkIV3 (- ix (step r)) 0 0) (nsteps s)
  | AxisY =>
      mkDda (cell_x s) (cell_y s + iy (step r)) (cell_z s)
            (t_max_y s)
            (t_max_x s) (F32.add (t_max_y s) (t_delta_y r)) (t_max_z s)
            (mkIV3 0 (- iy (step r)) 0) (nsteps s)
  | AxisZ =>
      mkDda (cell_x s) (cell_y s) (cell_z s + iz (step r))
            (t_max_z s)
            (t_max_x s) (t_max_y s) (F32.add (t_max_z s) (t_delta_z r))
            (mkIV3 0 0 (- iz (step r))) (nsteps s)
  end.

Definition sky_of (rd_y : float) : float :=
  clamp_f32 (F32.mul Lit.f_0_5 (F32.add rd_y Lit.f_1)) Lit.f_0 Lit.f_1.

(** Result for a ray that misses the box. *)
Definition miss_outside (rd_y : float) : TraceResult :=
  let sky := sky_of rd_y in
  mkTraceResult false false 0
    (mkV3 (F32.add Lit.f_0_5_5 (F32.mul Lit.f_0_2 sky))
          (F32.add Lit.f_0_7 (F32.mul Lit.f_0_15 sky))
          Lit.f_0_95).

(** Result after the loop ended without a hit. *)
Definition miss_inside (rd_y : float) (n : Z) : TraceResult :=
  let sky := sky_of rd_y in
  mkTraceResult false true n
    (mkV3 (F32.add Lit.f_0_5 (F32.mul Lit.f_0_3 sky))
          (F32.add Lit.f_0_65 (F32.mul Lit.f_0_2 sky))
          Lit.f_0_95).

(** Lambert term and height-based ambient term of a hit. *)
Definition shade_hit (id : Z) (nrm : IVec3) (cy : Z) : Vector3 float :=
  let base := sample_voxel_color id in
  let n := mkV3 (F32.of_int (ix nrm)) (F32.of_int (iy nrm)) (F32.of_int (iz nrm)) in
  let ndotl := F32.fmaxf (Vector3DotProduct n LIGHT_DIR) Lit.f_0 in
  let ao := F32.add Lit.f_0_7
              (F32.mul Lit.f_0_3 (F32.div (F32.of_int cy) (F32.of_int GRID_Y))) in
  Vector3Scale base (F32.add Lit.f_0_2 (F32.mul (F32.mul Lit.f_0_8 ndotl) ao)).

(** The loop [for (int i = 0; i < 256; i++)]: [n] is the number of
    iterations left. *)
Fixpoint dda_loop (vox : list Z) (r : DdaRay) (n : nat) (s : Dda) : Tr TraceResult :=
  match n with
  | O => mret (miss_inside (dir_y r) (nsteps s))
  | S n' =>
      if negb (inside_grid (cell_x s) (cell_y s) (cell_z s)) || F32.ltb (t_exit r) (t_cur s)
      then mret (miss_inside (dir_y r) (nsteps s))
      else
        let s := mkDda (cell_x s) (cell_y s) (cell_z s) (t_cur s)
                       (t_max_x s) (t_max_y s) (t_max_z s) (normal s) (nsteps s + 1) in
        id ← load_voxel vox (voxel_index (cell_x s) (cell_y s) (cell_z s));
        if negb (id =? 0) then
          mret (mkTraceResult true true (nsteps s) (shade_hit id (normal s) (cell_y s)))
        else dda_loop vox r n' (dda_advance r s)
  end.

(** One of the three guarded blocks of lines 239-250: the first crossing
    and the crossing increment of an axis. *)
Definition axis_crossing (t next_boundary p d : float) : Tr (float * float) :=
  if F32.ltb Lit.f_1em6 (F32.fabsf d) then
    q ← fdiv (F32.sub next_boundary p) d;
    i ← fdiv Lit.f_1 d;
    mret (F32.add t q, F32.fabsf i)
  else mret (Lit.f_1e30, Lit.f_1e30).

Section Trace.
Variable pf : Platform.

(** [clamp_i32((int) floorf(a), 0, hi)]. *)
Definition start_cell (a : float) (hi : Z) : Z :=
  clamp_i32 (F32.to_int (int_oob pf) (F32.floorf a)) 0 hi.

(** The traversal state on entry to the loop, for a clipped ray. *)
Definition dda_init (ro rd : Vector3 float) (t_enter t_exit : float)
  : Tr (DdaRay * Dda) :=
  let t := F32.fmaxf t_enter Lit.f_0 in
  let p := Vector3Add ro (Vector3Scale rd t) in
  let cell_x := start_cell (vx p) (GRID_X - 1) in
  let cell_y := start_cell (vy p) (GRID_Y - 1) in
  let cell_z := start_cell (vz p) (GRID_Z - 1) in
  let step := mkIV3 (if F32.ltb Lit.f_0 (vx rd) then 1 else -1)
                    (if F32.ltb Lit.f_0 (vy rd) then 1 else -1)
                    (if F32.ltb Lit.f_0 (vz rd) then 1 else -1) in
  let next_boundary :=
    mkV3 (F32.of_int (cell_x + (if ix step >? 0 then 1 else 0)))
         (F32.of_int (cell_y + (if iy step >? 0 then 1 else 0)))
         (F32.of_int (cell_z + (if iz step >? 0 then 1 else 0))) in
  '(t_max_x, t_delta_x) ← axis_crossing t (vx next_boundary) (vx p) (vx rd);
  '(t_max_y, t_delta_y) ← axis_crossing t (vy next_boundary) (vy p) (vy rd);
  '(t_max_z, t_delta_z) ← axis_crossing t (vz next_boundary) (vz p) (vz rd);
  mret (mkDdaRay step t_delta_x t_delta_y t_delta_z t_exit (vy rd),
        mkDda cell_x cell_y cell_z t t_max_x t_max_y t_max_z (mkIV3 0 1 0) 0).

Definition trace_ray_amanatides_woo (vox : list Z) (ro rd : Vector3 float)
  : Tr TraceResult :=
  clip ← ray_aabb ro rd;
  match clip with
  | None => mret (miss_outside (vy rd))
  | Some (t_enter, t_exit) =>
      '(r, s) ← dda_init ro rd t_enter t_exit;
      dda_loop vox r 256 s
  end.
End Trace.

(** ** Camera rays *)

(** The per-frame constants of ray generation (lines 331-346). *)
Record Camera (F : Type) : Type := mkCamera {
  forward : Vector3 F;
  right : Vector3 F;
  up : Vector3 F;
  u_step : F;
  v_step : F;
  u_start : F;
  v_start : F
}.
Arguments mkCamera {F} _ _ _ _ _ _ _.
Arguments forward {F} _.
Arguments right {F} _.
Arguments up {F} _.
Arguments u_step {F} _.
Arguments v_step {F} _.
Arguments u_start {F} _.
Arguments v_start {F} _.

Section RayGeneration.
Context {F : Type} `{Scalar F}.

Definition ray_step_x (c : Camera F) : Vector3 F :=
  Vector3Scale (right c) (u_step c).

(** Lines 350-351: the part of the direction shared by a scanline. *)
Definition row_base (c : Camera F) (y : Z) : Vector3 F :=
  let v := sc_add (v_start c) (sc_mul (sc_of_int y) (v_step c)) in
  Vector3Add (forward c) (Vector3Scale (up c) v).

(** Line 352: the ray of the first pixel of the scanline. *)
Definition row_first_ray (c : Camera F) (y : Z) : Vector3 F :=
  Vector3Add (row_base c y) (Vector3Scale (right c) (u_start c)).

(** [n] executions of line 375, [ray = Vector3Add(ray, ray_step_x)]. *)
Fixpoint advance_ray (n : nat) (ray dx : Vector3 F) : Vector3 F :=
  match n with
  | O => ray
  | S n' => advance_ray n' (Vector3Add ray dx) dx
  end.

(** The un-normalized direction the renderer uses for pixel [(x, y)]. *)
Definition pixel_ray (c : Camera F) (x : nat) (y : Z) : Vector3 F :=
  advance_ray x (row_first_ray c y) (ray_step_x c).

(** The direct evaluation the specification compares it with:
    [forward + up * (v_start + y * v_step) + right * (u_start + x * u_step)]. *)
Definition pixel_ray_closed_form (c : Camera F) (x : nat) (y : Z) : Vector3 F :=
  let u := sc_add (u_start c) (sc_mul (sc_of_int (Z.of_nat x)) (u_step c)) in
  Vector3Add (row_base c y) (Vector3Scale (right c) u).
End RayGeneration.

(** ** Frame renderer *)

Definition zero_stats : FrameStats :=
  mkFrameStats 0 0 0 0 0 Lit.f_0 Lit.f_0 Lit.f_0 Lit.f_0.

(** Lines 359-362: fold one trace result into the counters. *)
Definition count_ray (st : FrameStats) (tr : TraceResult) : FrameStats :=
  mkFrameStats (rays st)
    (if entered_grid tr then rays_entered_grid st + 1 else rays_entered_grid st)
    (if hit tr then hits st + 1 else hits st)
    (total_steps st + steps tr)
    (if steps tr >? max_steps st then steps tr else max_steps st)
    (avg_steps_per_ray st) (hit_ratio st) (rays_per_sec st) (steps_per_sec st).

(** Lines 379-386: the derived averages and the throughput. *)
Definition finish_stats (st : FrameStats) (dt : float) : FrameStats :=
  let st :=
    if rays st >? 0 then
      mkFrameStats (rays st) (rays_entered_grid st) (hits st) (total_steps st) (max_steps st)
        (F32.div (F32.of_int (total_steps st)) (F32.of_int (rays st)))
        (F32.div (F32.of_int (hits st)) (F32.of_int (rays st)))
        (rays_per_sec st) (steps_per_sec st)
    else st in
  if F32.ltb Lit.f_1em6 dt then
    mkFrameStats (rays st) (rays_entered_grid st) (hits st) (total_steps st) (max_steps st)
      (avg_steps_per_ray st) (hit_ratio st)
      (F32.div (F32.of_int (rays st)) dt)
      (F32.div (F32.of_int (total_steps st)) dt)
  else st.

Section Render.
Variable pf : Platform.

(** [clamp_i32((int) (c * 255.0f), 0, 255)]. *)
Definition channel (c : float) : Z :=
  clamp_i32 (F32.to_int (int_oob pf) (F32.mul c Lit.f_255)) 0 255.

Definition to_color (c : Vector3 float) : Color :=
  mkColor (channel (vx c)) (channel (vy c)) (channel (vz c)) 255.

Definition scene_center : Vector3 float :=
  mkV3 (F32.mul (F32.of_int GRID_X) Lit.f_0_5) Lit.f_3
       (F32.mul (F32.of_int GRID_Z) Lit.f_0_5).

(** Lines 316-328: the camera position. *)
Definition camera_position (time_s : float) (freeze : bool) : Vector3 float :=
  let center := scene_center in
  let orbit_t := F32.mul time_s Lit.f_0_6 in
  let radius := Lit.f_18 in
  let cam :=
    mkV3 (F32.add (vx center) (F32.mul (cosf pf orbit_t) radius))
         (F32.add Lit.f_8_5 (F32.mul (sinf pf (F32.mul orbit_t Lit.f_0_7)) Lit.f_1_5))
         (F32.add (vz center) (F32.mul (sinf pf orbit_t) radius)) in
  if freeze then mkV3 (F32.add (vx center) radius) Lit.f_8_5 (vz center) else cam.

(** Lines 331-345: camera basis and projection constants. *)
Definition camera_frame (cam : Vector3 float) : Camera float :=
  let forward := Vector3Normalize (Vector3Subtract scene_center cam) in
  let right := Vector3Normalize
                 (Vector3CrossProduct forward (mkV3 Lit.f_0 Lit.f_1 Lit.f_0)) in
  let up := Vector3Normalize (Vector3CrossProduct right forward) in
  let aspect := F32.div (F32.of_int IMG_W) (F32.of_int IMG_H) in
  let fov_scale :=
    tanf pf (F32.mul (F32.mul Lit.f_55 Lit.f_0_5) (F32.div Lit.f_pi Lit.f_180)) in
  let inv_img_w := F32.div Lit.f_1 (F32.of_int IMG_W) in
  let inv_img_h := F32.div Lit.f_1 (F32.of_int IMG_H) in
  let u_step := F32.mul (F32.mul (F32.mul Lit.f_2 aspect) fov_scale) inv_img_w in
  let v_step := F32.mul (F32.mul Lit.f_m2 fov_scale) inv_img_h in
  let u_start := F32.mul (F32.mul (F32.add Lit.f_m1 inv_img_w) aspect) fov_scale in
  let v_start := F32.mul (F32.sub Lit.f_1 inv_img_h) fov_scale in
  mkCamera forward right up u_step v_step u_start v_start.

(** Lines 356-373 for one pixel: trace, count, store the colour. *)
Definition render_pixel (vox : list Z) (cam ray : Vector3 float) (pixel_index : Z)
    (acc : FrameStats * list Color) : FrameStats * list Color :=
  let dir := Vector3Normalize ray in
  let tr := result (trace_ray_amanatides_woo pf vox cam dir) in
  (count_ray (fst acc) tr,
   <[Z.to_nat pixel_index := to_color (col tr)]> (snd acc)).

(** The inner loop over [x], with [n] pixels of the scanline left. *)
Fixpoint render_row (vox : list Z) (cam dx : Vector3 float) (n : nat)
    (ray : Vector3 float) (pixel_index : Z) (acc : FrameStats * list Color)
    : FrameStats * list Color :=
  match n with
  | O => acc
  | S n' =>
      render_row vox cam dx n' (Vector3Add ray dx) (pixel_index + 1)
                 (render_pixel vox cam ray pixel_index acc)
  end.

Definition render_voxel_image (g : AppState) (dt : float) : AppState * FrameStats :=
  let stats := mkFrameStats (IMG_W * IMG_H) 0 0 0 0 Lit.f_0 Lit.f_0 Lit.f_0 Lit.f_0 in
  let cam := camera_position (time_s g) (freeze_camera g) in
  let c := camera_frame cam in
  let acc :=
    for_range 0 (Z.to_nat IMG_H)
      (fun y acc => render_row (voxels g) cam (ray_step_x c) (Z.to_nat IMG_W)
                               (row_first_ray c y) (y * IMG_W) acc)
      (stats, pixels g) in
  (with_pixels g (snd acc), finish_stats (fst acc) dt).
End Render.


(** ** The frame loop of [main]

    The window, the texture upload and the drawing calls are raylib's;
    what the loop does to the application state is modelled, with the
    values raylib supplies as arguments: [frame_time] is the result of
    [GetFrameTime()], [freeze_pressed] and [quit_pressed] are the results
    of the two [ui_button] calls of [draw_overlay]. *)

(** Lines 461-466 of [draw_overlay]: the effect of the two buttons. *)
Definition overlay_buttons (g : AppState) (freeze_pressed quit_pressed : bool) : AppState :=
  let g :=
    if freeze_pressed then
      mkAppState (ray_texture g) (pixels g) (voxels g) (time_s g)
                 (negb (freeze_camera g)) (request_quit g)
                 (frame_stats g) (frame_ms g) (fps_smooth g)
    else g in
  if quit_pressed then
    mkAppState (ray_texture g) (pixels g) (voxels g) (time_s g)
               (freeze_camera g) true
               (frame_stats g) (frame_ms g) (fps_smooth g)
  else g.

Section FrameLoop.
Variable pf : Platform.

(** Lines 485-499: frame time, camera timer and smoothed frame rate. *)
Definition frame_dt (frame_time : float) : float :=
  clamp_f32 frame_time Lit.f_1em5 Lit.f_0_25.

Definition update_timers (g : AppState) (dt : float) : AppState :=
  let time_s' := if negb (freeze_camera g) then F32.add (time_s g) dt else time_s g in
  let frame_ms' := F32.mul dt Lit.f_1000 in
  let fps := if F32.ltb Lit.f_1em6 dt then F32.div Lit.f_1 dt else Lit.f_0 in
  let fps_smooth' :=
    if F32.leb (fps_smooth g) Lit.f_0 then fps
    else F32.add (F32.mul (fps_smooth g) Lit.f_0_9) (F32.mul fps Lit.f_0_1) in
  mkAppState (ray_texture g) (pixels g) (voxels g) time_s'
             (freeze_camera g) (request_quit g)
             (frame_stats g) frame_ms' fps_smooth'.

(** One iteration of the loop (lines 484-520). *)
Definition frame_iteration (g : AppState) (frame_time : float)
    (freeze_pressed quit_pressed : bool) : AppState :=
  let dt := frame_dt frame_time in
  let g := update_timers g dt in
  let '(g, stats) := render_voxel_image pf g dt in
  let g := mkAppState (ray_texture g) (pixels g) (voxels g) (time_s g)
                      (freeze_camera g) (request_quit g)
                      stats (frame_ms g) (fps_smooth g) in
  overlay_buttons g freeze_pressed quit_pressed.
End FrameLoop.

(** ** Concrete inputs used by the examples *)

Module Demo.

(** A desktop target: the conversion of an unrepresentable value yields
    [INT_MIN] (the "integer indefinite" of the x86 conversion
    instructions); [tanf] returns the binary32 nearest to the tangent at
    the one argument the renderer passes, and the orbit functions are
    the first terms of their series. *)
Definition platform : Platform :=
  mkPlatform (fun _ => Lit.f_1) (fun a => a)
             (fun _ => F32.of_bits 0x3f0543e2)
             (fun _ => F32.int_min).

Definition blank : AppState :=
  mkAppState (mkTexture2D 0 0 0)
             (replicate (Z.to_nat (IMG_W * IMG_H)) (mkColor 0 0 0 0))
             (replicate (Z.to_nat GRID_SIZE) 0)
             Lit.f_0 true false zero_stats Lit.f_0 Lit.f_0.

(** The tutorial scene, camera frozen. *)
Definition scene : AppState := build_scene blank.

(** The frozen camera and its frame. *)
Definition cam : Vector3 float := camera_position platform Lit.f_0 true.
Definition frame : Camera float := camera_frame platform cam.

(** The ray through the image centre line: from the camera toward the
    scene centre. *)
Definition centre_dir : Vector3 float := forward frame.

(** A horizontal ray that enters the box through its face x = GRID_X,
    half a voxel above the floor; the first cell it meets, (23, 0, 12),
    belongs to the ground plane. *)
Definition low_origin : Vector3 float :=
  mkV3 (F32.of_int 30) Lit.f_0_5 (F32.of_int 12).
Definition low_dir : Vector3 float := mkV3 Lit.f_m1 Lit.f_0 Lit.f_0.

(** A ray that starts inside the box, at (12, 8, 12), and runs along +x. *)
Definition inner_origin : Vector3 float :=
  mkV3 (F32.of_int 12) (F32.of_int 8) (F32.of_int 12).
Definition inner_dir : Vector3 float := mkV3 Lit.f_1 Lit.f_0 Lit.f_0.

(** A ray from the cell centre (0.5, 0.5, 0.5) along the diagonal of the
    x-y plane: its x and y crossings are at equal distances. *)
Definition diag_origin : Vector3 float := mkV3 Lit.f_0_5 Lit.f_0_5 Lit.f_0_5.
Definition diag_dir : Vector3 float := Vector3Normalize (mkV3 Lit.f_1 Lit.f_1 Lit.f_0).

(** The traversal state of that ray on entry to the loop. *)
Definition diag_state : Dda :=
  match result (ray_aabb diag_origin diag_dir) with
  | Some (t0, t1) => snd (result (dda_init platform diag_origin diag_dir t0 t1))
  | None => mkDda 0 0 0 Lit.f_0 Lit.f_0 Lit.f_0 Lit.f_0 (mkIV3 0 1 0) 0
  end.

Definition diag_ray : DdaRay :=
  match result (ray_aabb diag_origin diag_dir) with
  | Some (t0, t1) => fst (result (dda_init platform diag_origin diag_dir t0 t1))
  | None => mkDdaRay (mkIV3 1 1 1) Lit.f_0 Lit.f_0 Lit.f_0 Lit.f_0 Lit.f_0
  end.

(** The same scene in a state whose other fields differ: a stale white
    pixel buffer, another scene time (the camera is frozen), other
    overlay values. *)
Definition scene_stale : AppState :=
  mkAppState (mkTexture2D 3 320 180)
             (replicate (Z.to_nat (IMG_W * IMG_H)) (mkColor 255 255 255 255))
             (voxels scene)
             Lit.f_8_5 true true zero_stats Lit.f_18 Lit.f_55.

(** Two frame times, 1/64 s and 1/32 s. *)
Definition dt_64 : float := F32.of_bits 0x3c800000.
Definition dt_32 : float := F32.of_bits 0x3d000000.


End Demo.

(** ** Vocabulary of the statements *)

(** The loop guard of line 258. *)
Definition loop_exit (r : DdaRay) (s : Dda) : bool :=
  negb (inside_grid (cell_x s) (cell_y s) (cell_z s)) || F32.ltb (t_exit r) (t_cur s).

Definition count_step (s : Dda) : Dda :=
  mkDda (cell_x s) (cell_y s) (cell_z s) (t_cur s)
        (t_max_x s) (t_max_y s) (t_max_z s) (normal s) (nsteps s + 1).

Definition cell_index (s : Dda) : Z := voxel_index (cell_x s) (cell_y s) (cell_z s).

(** A load that reads the element of a cell inside the grid, hence an
    element of the array. *)
Definition load_in_grid (e : event) : Prop :=
  match e with
  | EvLoad i =>
      (exists x y z, inside_grid x y z = true /\ i = voxel_index x y z) /\
      0 <= i < GRID_SIZE
  | EvDiv _ _ => True
  end.

(** The ordered pair of crossing distances [axis_slab] computes for an
    axis the ray is not parallel to (lines 161-168). *)
Definition slab_interval (orig dir mn mx : float) : float * float :=
  let inv := F32.div Lit.f_1 dir in
  let t_a := F32.mul (F32.sub mn orig) inv in
  let t_b := F32.mul (F32.sub mx orig) inv in
  if F32.ltb t_b t_a then (t_b, t_a) else (t_a, t_b).


(** ** The order of binary32 numbers

    [SFcompare] orders numbers by class and sign, then by exponent, then
    by mantissa.  [ord_key] maps a number to a triple of integers whose
    lexicographic order is that order (both zeros share a key). *)
Definition ord_key (x : float) : Z * Z * Z :=
  match x with
  | S754_infinity true => (-2, 0, 0)
  | S754_finite true m e => (-1, - e, - Zpos m)
  | S754_zero _ => (0, 0, 0)
  | S754_nan => (0, 0, 0)
  | S754_finite false m e => (1, e, Zpos m)
  | S754_infinity false => (2, 0, 0)
  end.

Definition key_lt (a b : Z * Z * Z) : Prop :=
  let '(a1, a2, a3) := a in
  let '(b1, b2, b3) := b in
  a1 < b1 \/ (a1 = b1 /\ (a2 < b2 \/ (a2 = b2 /\ a3 < b3))).

Definition key_le (a b : Z * Z * Z) : Prop := key_lt a b \/ a = b.

(** The stepping rule as the specification words it: the smallest
    crossing distance wins and, among equal distances, x goes before y
    and y before z. *)
Definition spec_axis (s : Dda) : axis :=
  if F32.leb (t_max_x s) (t_max_y s) && F32.leb (t_max_x s) (t_max_z s) then AxisX
  else if F32.leb (t_max_y s) (t_max_z s) then AxisY
  else AxisZ.

Definition cell_of (s : Dda) (a : axis) : Z :=
  match a with
  | AxisX => cell_x s
  | AxisY => cell_y s
  | AxisZ => cell_z s
  end.

Definition step_of (r : DdaRay) (a : axis) : Z :=
  match a with
  | AxisX => ix (step r)
  | AxisY => iy (step r)
  | AxisZ => iz (step r)
  end.

Definition t_delta_of (r : DdaRay) (a : axis) : float :=
  match a with
  | AxisX => t_delta_x r
  | AxisY => t_delta_y r
  | AxisZ => t_delta_z r
  end.

Definition axis_eqb (a b : axis) : bool :=
  match a, b with
  | AxisX, AxisX | AxisY, AxisY | AxisZ, AxisZ => true
  | _, _ => false
  end.

(** The component of the recorded normal on an axis. *)
Definition normal_of (s : Dda) (a : axis) : Z :=
  match a with
  | AxisX => ix (normal s)
  | AxisY => iy (normal s)
  | AxisZ => iz (normal s)
  end.


(** The stats fields the per-pixel accumulation never writes. *)
Definition fixed_fields (st : FrameStats) : Z * float * float * float * float :=
  (rays st, avg_steps_per_ray st, hit_ratio st, rays_per_sec st, steps_per_sec st).

(** Two accumulators of the render loop that agree on the counters and on
    the first [k] pixels. *)
Definition agree_upto (k : Z) (a1 a2 : FrameStats * list Color) : Prop :=
  fst a1 = fst a2 /\
  length (snd a1) = length (snd a2) /\
  take (Z.to_nat k) (snd a1) = take (Z.to_nat k) (snd a2).

(** A float that carries the sign [s] and is not a NaN. *)
Definition signed (s : bool) (x : float) : Prop :=
  F32.is_nan x = false /\ F32.signbit x = s.

(** An entry candidate that cannot raise the running [tmin] above zero:
    a NaN (which [fmaxf] ignores) or a number not above zero, or else the
    positive infinity (which makes the box test fail). *)
Definition entry_ok (x : float) : Prop :=
  key_le (ord_key x) (0, 0, 0) \/ x = S754_infinity false.

(** The ray origin lies in the closed grid box and its coordinates are
    well-formed binary32 numbers. *)
Definition origin_in_box (ro : Vector3 float) : Prop :=
  (F32.valid (vx ro) = true /\ F32.leb Lit.f_0 (vx ro) = true /\
   F32.leb (vx ro) (F32.of_int GRID_X) = true) /\
  (F32.valid (vy ro) = true /\ F32.leb Lit.f_0 (vy ro) = true /\
   F32.leb (vy ro) (F32.of_int GRID_Y) = true) /\
  (F32.valid (vz ro) = true /\ F32.leb Lit.f_0 (vz ro) = true /\
   F32.leb (vz ro) (F32.of_int GRID_Z) = true).

(** The running interval of [ray_aabb] holds numbers, and the exit side
    never exceeds its initial value 1e30. *)
Definition interval_ok (tmin tmax : float) : Prop :=
  F32.is_nan tmin = false /\ F32.is_nan tmax = false /\
  key_le (ord_key tmax) (ord_key Lit.f_1e30).

(** ** Vocabulary of the further properties *)

(** The cell stored at a linear index. *)
Definition cell_of_index (i : Z) : Z * Z * Z :=
  (i mod GRID_X, (i / GRID_X) mod GRID_Y, i / (GRID_X * GRID_Y)).

(** The tutorial scene in closed form: the material of cell (x, y, z). *)
Definition scene_material (x y z : Z) : Z :=
  if y =? 0 then 1
  else if ((x =? 8) || (x =? 9)) && ((z =? 8) || (z =? 9)) && (1 <=? y) && (y <=? 5) then 2
  else if (14 <=? x) && (x <=? 18) && (z =? 14) && (1 <=? y) && (y <=? 3) then 3
  else if (x =? 17) && (z =? 6) && (1 <=? y) && (y <=? 7) then 4
  else 0.

(** The array element at index [i] holds the scene material of its cell. *)
Definition scene_cell_ok (vox : list Z) (i : nat) : bool :=
  let '(x, y, z) := cell_of_index (Z.of_nat i) in
  match vox !! i with
  | Some v => v =? scene_material x y z
  | None => false
  end.

(** The indices of the voxel loads in a log, in order. *)
Fixpoint loads (l : list event) : list Z :=
  match l with
  | [] => []
  | EvLoad i :: l' => i :: loads l'
  | EvDiv _ _ :: l' => loads l'
  end.

(** The divisors of the divisions in a log, in order. *)
Fixpoint divisors (l : list event) : list float :=
  match l with
  | [] => []
  | EvDiv _ den :: l' => den :: divisors l'
  | EvLoad _ :: l' => divisors l'
  end.

(** The material the model reads at index [i]. *)
Definition read_voxel (vox : list Z) (i : Z) : Z := default 0 (vox !! Z.to_nat i).

(** The colour the renderer computes for pixel (x, y): the traced colour
    of the normalized incremental ray, converted to bytes. *)
Definition pixel_color (pf : Platform) (vox : list Z) (cam : Vector3 float)
    (c : Camera float) (x y : Z) : Color :=
  to_color pf (col (result (trace_ray_amanatides_woo pf vox cam
                              (Vector3Normalize (pixel_ray c (Z.to_nat x) y))))).

(** The counters of a frame in which [k] rays have been traced. *)
Definition counters_ok (k : Z) (st : FrameStats) : Prop :=
  0 <= hits st <= rays_entered_grid st /\
  rays_entered_grid st <= k /\
  rays_entered_grid st <= total_steps st <= 256 * rays_entered_grid st /\
  0 <= max_steps st <= 256 /\
  max_steps st <= total_steps st.

Definition byte_range (n : Z) : Prop := 0 <= n <= 255.

(** A grid without occupied voxels. *)
Definition empty_grid (vox : list Z) : Prop := forall i : Z, read_voxel vox i = 0.

(** An opaque pixel whose colour channels are bytes. *)
Definition opaque_bytes (p : Color) : Prop :=
  byte_range (cr p) /\ byte_range (cg p) /\ byte_range (cb p) /\ ca p = 255.

(** A divisor that passed one of the epsilon guards: not below 1e-6 in
    magnitude, in particular not a zero. *)
Definition safe_divisor (d : float) : Prop :=
  F32.ltb (F32.fabsf d) Lit.f_1em6 = false /\ F32.is_zero d = false.

(** At most [n] elements, all satisfying [P]. *)
Definition at_most_all {A : Type} (P : A -> Prop) (n : nat) (l : list A) : Prop :=
  Forall P l /\ (length l <= n)%nat.

(** A safe divisor that is one of the three direction components. *)
Definition guarded_component (rd : Vector3 float) (d : float) : Prop :=
  safe_divisor d /\ (d = vx rd \/ d = vy rd \/ d = vz rd).

(** The ray is parallel to the slab [0, hi] of an axis (direction
    component below 1e-6 in magnitude) and starts outside it. *)
Definition parallel_outside (o d hi : float) : Prop :=
  F32.ltb (F32.fabsf d) Lit.f_1em6 = true /\
  (F32.ltb o Lit.f_0 = true \/ F32.ltb hi o = true).

(** Consecutive elements of a list are related by [R]. *)
Fixpoint linked (R : Z -> Z -> Prop) (l : list Z) : Prop :=
  match l with
  | a :: t => match t with
              | b :: _ => R a b /\ linked R t
              | [] => True
              end
  | [] => True
  end.

(** The indices of two cells that share a face: they differ by one step
    along x (1), y (GRID_X) or z (GRID_X * GRID_Y). *)
Definition adjacent_index (i j : Z) : Prop :=
  Z.abs (i - j) = 1 \/ Z.abs (i - j) = GRID_X \/ Z.abs (i - j) = GRID_X * GRID_Y.

(** Every component of the step vector is +1 or -1. *)
Definition unit_step (r : DdaRay) : Prop :=
  (ix (step r) = 1 \/ ix (step r) = -1) /\
  (iy (step r) = 1 \/ iy (step r) = -1) /\
  (iz (step r) = 1 \/ iz (step r) = -1).

(** An axis-aligned unit vector. *)
Definition unit_normal (n : IVec3) : Prop :=
  Z.abs (ix n) + Z.abs (iy n) + Z.abs (iz n) = 1.

(** The traversal state at the top of iteration [k] (counting from 0)
    when the iterations before it found empty cells: each of them
    increments the step count (line 261) and takes one of the three
    advancing branches (lines 280-296). *)
Fixpoint dda_state_after (r : DdaRay) (k : nat) (s : Dda) : Dda :=
  match k with
  | O => s
  | S k' => dda_state_after r k' (dda_advance r (count_step s))
  end.

(** The normal recorded when the cell is left along an axis (lines 284,
    289 and 294): the negated step on that axis, zero on the others. *)
Definition face_normal (r : DdaRay) (a : axis) : IVec3 :=
  match a with
  | AxisX => mkIV3 (- ix (step r)) 0 0
  | AxisY => mkIV3 0 (- iy (step r)) 0
  | AxisZ => mkIV3 0 0 (- iz (step r))
  end.

(** ** Values and rounding errors *)









(** * Properties *)

(** Float operations stay folded during simplification. *)
#[global] Arguments F32.add : simpl never.
#[global] Arguments F32.sub : simpl never.
#[global] Arguments F32.mul : simpl never.
#[global] Arguments F32.div : simpl never.
#[global] Arguments F32.sqrt : simpl never.
#[global] Arguments F32.ltb : simpl never.
#[global] Arguments F32.leb : simpl never.
#[global] Arguments F32.eqb : simpl never.
#[global] Arguments F32.of_int : simpl never.
#[global] Arguments F32.of_bits : simpl never.
#[global] Arguments F32.fmaxf : simpl never.
#[global] Arguments F32.fminf : simpl never.
#[global] Arguments F32.fabsf : simpl never.
#[global] Arguments F32.floorf : simpl never.
#[global] Arguments F32.to_int : simpl never.

(** ** Order of floats *)

Lemma compare_cont_Eq (p q : positive) : Pos.compare_cont Eq p q = (Z.pos p ?= Z.pos q).
Proof. reflexivity. Qed.

Lemma SFcompare_key (a b : float) :
  F32.is_nan a = false -> F32.is_nan b = false ->
  exists c, SFcompare a b = Some c /\
    (c = Lt <-> key_lt (ord_key a) (ord_key b)) /\
    (c = Eq <-> ord_key a = ord_key b) /\
    (c = Gt <-> key_lt (ord_key b) (ord_key a)).
Proof.
  intros Ha Hb.
  destruct a as [sa|sa| |sa ma ea]; try discriminate;
  destruct b as [sb|sb| |sb mb eb]; try discriminate;
  try destruct sa; try destruct sb; simpl;
  try (eexists; split; [reflexivity|];
       repeat split; intros; try discriminate; try lia; try congruence; fail).
  - rewrite compare_cont_Eq.
    destruct (Z.compare_spec ea eb) as [E|E|E];
      [destruct (Z.compare_spec (Z.pos ma) (Z.pos mb)) as [M|M|M]| |];
      simpl; eexists; (split; [reflexivity|]);
      repeat split; intros; try discriminate; try lia; try congruence;
      match goal with H : (_, _, _) = (_, _, _) |- _ => inversion H; lia end.
  - rewrite compare_cont_Eq.
    destruct (Z.compare_spec ea eb) as [E|E|E];
      [destruct (Z.compare_spec (Z.pos ma) (Z.pos mb)) as [M|M|M]| |];
      simpl; eexists; (split; [reflexivity|]);
      repeat split; intros; try discriminate; try lia; try congruence;
      match goal with H : (_, _, _) = (_, _, _) |- _ => inversion H; lia end.
Qed.


Lemma ltb_key (a b : float) :
  F32.is_nan a = false -> F32.is_nan b = false ->
  (F32.ltb a b = true <-> key_lt (ord_key a) (ord_key b)).
Proof.
  intros Ha Hb. destruct (SFcompare_key a b Ha Hb) as (c & Hc & HLt & HEq & HGt).
  unfold F32.ltb, SFltb. rewrite Hc. rewrite <- HLt.
  destruct c; split; congruence.
Qed.

Lemma eqb_key (a b : float) :
  F32.is_nan a = false -> F32.is_nan b = false ->
  (F32.eqb a b = true <-> ord_key a = ord_key b).
Proof.
  intros Ha Hb. destruct (SFcompare_key a b Ha Hb) as (c & Hc & HLt & HEq & HGt).
  unfold F32.eqb, SFeqb. rewrite Hc. rewrite <- HEq.
  destruct c; split; congruence.
Qed.

Lemma leb_key (a b : float) :
  F32.is_nan a = false -> F32.is_nan b = false ->
  (F32.leb a b = true <-> key_le (ord_key a) (ord_key b)).
Proof.
  intros Ha Hb. destruct (SFcompare_key a b Ha Hb) as (c & Hc & HLt & HEq & HGt).
  unfold F32.leb, SFleb, key_le. rewrite Hc. rewrite <- HLt, <- HEq.
  destruct c; split; try tauto; try congruence. intros []; congruence.
Qed.

Lemma key_lt_irrefl k : ~ key_lt k k.
Proof. destruct k as [[a b] c]. unfold key_lt. lia. Qed.

Lemma key_lt_trans k1 k2 k3 : key_lt k1 k2 -> key_lt k2 k3 -> key_lt k1 k3.
Proof.
  destruct k1 as [[a1 b1] c1], k2 as [[a2 b2] c2], k3 as [[a3 b3] c3].
  unfold key_lt. lia.
Qed.

Lemma key_total k1 k2 : key_lt k1 k2 \/ k1 = k2 \/ key_lt k2 k1.
Proof.
  destruct k1 as [[a1 b1] c1], k2 as [[a2 b2] c2]. unfold key_lt.
  destruct (Z.lt_trichotomy a1 a2) as [|[|]]; [lia| |lia].
  destruct (Z.lt_trichotomy b1 b2) as [|[|]]; [lia| |lia].
  destruct (Z.lt_trichotomy c1 c2) as [|[|]]; [lia| |lia].
  right; left. congruence.
Qed.

Lemma key_le_not_lt k1 k2 : key_le k1 k2 <-> ~ key_lt k2 k1.
Proof.
  unfold key_le. split.
  - intros [H| ->] H'; [|eapply key_lt_irrefl; eassumption].
    eapply key_lt_irrefl. eapply key_lt_trans; eassumption.
  - intros H. destruct (key_total k1 k2) as [|[|]]; tauto.
Qed.

Lemma key_le_trans k1 k2 k3 : key_le k1 k2 -> key_le k2 k3 -> key_le k1 k3.
Proof.
  unfold key_le. intros [H1| ->] [H2| ->]; auto.
  left. eapply key_lt_trans; eassumption.
Qed.

(** On numbers, [a < b] fails exactly when [b <= a]. *)
Lemma ltb_false_leb (a b : float) :
  F32.is_nan a = false -> F32.is_nan b = false ->
  (F32.ltb a b = false <-> F32.leb b a = true).
Proof.
  intros Ha Hb. rewrite (leb_key b a Hb Ha), key_le_not_lt, <- (ltb_key a b Ha Hb).
  destruct (F32.ltb a b); split; congruence.
Qed.

Lemma fmaxf_not_nan (a b : float) :
  F32.is_nan a = false -> F32.is_nan (F32.fmaxf a b) = false.
Proof.
  unfold F32.fmaxf. intros Ha. rewrite Ha.
  destruct (F32.is_nan b) eqn:Hb; [assumption|]. destruct (F32.ltb a b); assumption.
Qed.

Lemma fminf_not_nan (a b : float) :
  F32.is_nan a = false -> F32.is_nan (F32.fminf a b) = false.
Proof.
  unfold F32.fminf. intros Ha. rewrite Ha.
  destruct (F32.is_nan b) eqn:Hb; [assumption|]. destruct (F32.ltb b a); assumption.
Qed.

(** [fmaxf a b] is an upper bound of its number arguments. *)
Lemma fmaxf_key (a b : float) :
  F32.is_nan a = false ->
  key_le (ord_key a) (ord_key (F32.fmaxf a b)) /\
  (F32.is_nan b = false -> key_le (ord_key b) (ord_key (F32.fmaxf a b))) /\
  (F32.fmaxf a b = a \/ (F32.is_nan b = false /\ F32.fmaxf a b = b)).
Proof.
  intros Ha. unfold F32.fmaxf. rewrite Ha.
  destruct (F32.is_nan b) eqn:Hb.
  - repeat split; [right; reflexivity|discriminate|left; reflexivity].
  - destruct (F32.ltb a b) eqn:E.
    + apply ltb_key in E; try assumption.
      repeat split; [left; assumption|right; reflexivity|right; split; reflexivity].
    + apply ltb_false_leb in E; try assumption. apply leb_key in E; try assumption.
      repeat split; [right; reflexivity|intros _; assumption|left; reflexivity].
Qed.

Lemma fminf_key (a b : float) :
  F32.is_nan a = false ->
  key_le (ord_key (F32.fminf a b)) (ord_key a) /\
  (F32.is_nan b = false -> key_le (ord_key (F32.fminf a b)) (ord_key b)) /\
  (F32.fminf a b = a \/ (F32.is_nan b = false /\ F32.fminf a b = b)).
Proof.
  intros Ha. unfold F32.fminf. rewrite Ha.
  destruct (F32.is_nan b) eqn:Hb.
  - repeat split; [right; reflexivity|discriminate|left; reflexivity].
  - destruct (F32.ltb b a) eqn:E.
    + apply ltb_key in E; try assumption.
      repeat split; [left; assumption|right; reflexivity|right; split; reflexivity].
    + apply ltb_false_leb in E; try assumption. apply leb_key in E; try assumption.
      repeat split; [right; reflexivity|intros _; assumption|left; reflexivity].
Qed.

Lemma key_le_unfold a1 a2 a3 b1 b2 b3 :
  key_le (a1, a2, a3) (b1, b2, b3) <->
  a1 < b1 \/ (a1 = b1 /\ (a2 < b2 \/ (a2 = b2 /\ a3 <= b3))).
Proof.
  unfold key_le, key_lt. split.
  - intros [H|H]; [lia|]. inversion H; lia.
  - intros H. destruct (Z.eq_dec a3 b3) as [->|]; [|left; lia].
    destruct (Z.eq_dec a2 b2) as [->|]; [|left; lia].
    destruct (Z.eq_dec a1 b1) as [->|]; [|left; lia].
    right; reflexivity.
Qed.

(** Turns comparisons of numbers into linear arithmetic on their keys. *)
Ltac float_order :=
  repeat match goal with
         | H : F32.ltb ?a ?b = true |- _ => apply ltb_key in H; [|assumption|assumption]
         | H : F32.ltb ?a ?b = false |- _ =>
             apply ltb_false_leb in H; [|assumption|assumption]
         | H : F32.leb ?a ?b = true |- _ => apply leb_key in H; [|assumption|assumption]
         end;
  rewrite ?ltb_key, ?leb_key by assumption;
  repeat match goal with
         | |- context [ord_key ?x] =>
             let k1 := fresh "k" in let k2 := fresh "k" in let k3 := fresh "k" in
             destruct (ord_key x) as [[k1 k2] k3]
         | H : context [ord_key ?x] |- _ =>
             let k1 := fresh "k" in let k2 := fresh "k" in let k3 := fresh "k" in
             destruct (ord_key x) as [[k1 k2] k3]
         end;
  rewrite ?key_le_unfold in *; unfold key_lt in *; try lia.
(** ** The logging monad *)

Lemma result_ret {A : Type} (a : A) : result (mret a : Tr A) = a.
Proof. reflexivity. Qed.

Lemma events_ret {A : Type} (a : A) : events (mret a : Tr A) = [].
Proof. reflexivity. Qed.

Lemma result_bind {A B : Type} (m : Tr A) (f : A -> Tr B) :
  result (m ≫= f) = result (f (result m)).
Proof.
  unfold result, mbind, Tr_bind. destruct m as [a l]; simpl.
  destruct (f a); reflexivity.
Qed.

Lemma events_bind {A B : Type} (m : Tr A) (f : A -> Tr B) :
  events (m ≫= f) = events m ++ events (f (result m)).
Proof.
  unfold events, result, mbind, Tr_bind. destruct m as [a l]; simpl.
  destruct (f a); reflexivity.
Qed.

(** ** The voxel grid *)

Lemma inside_grid_spec x y z :
  inside_grid x y z = true <->
  0 <= x < GRID_X /\ 0 <= y < GRID_Y /\ 0 <= z < GRID_Z.
Proof. unfold inside_grid. rewrite !andb_true_iff. lia. Qed.

Lemma voxel_index_bounds x y z :
  inside_grid x y z = true -> 0 <= voxel_index x y z < GRID_SIZE.
Proof.
  rewrite inside_grid_spec. unfold voxel_index, GRID_SIZE, GRID_X, GRID_Y, GRID_Z. lia.
Qed.

Lemma voxel_index_inj x y z x' y' z' :
  inside_grid x y z = true -> inside_grid x' y' z' = true ->
  voxel_index x y z = voxel_index x' y' z' -> x = x' /\ y = y' /\ z = z'.
Proof.
  rewrite !inside_grid_spec. unfold voxel_index, GRID_X, GRID_Y, GRID_Z. lia.
Qed.

Lemma clamp_i32_range v lo hi : lo <= hi -> lo <= clamp_i32 v lo hi <= hi.
Proof. unfold clamp_i32. intros. destruct (Z.ltb_spec v lo); [lia|]. destruct (Z.gtb_spec v hi); lia. Qed.

(** C6 (set_voxel): a call with coordinates outside the grid returns the
    state unchanged; a call with coordinates inside the grid stores the
    value in the addressed cell, leaves every other array element and
    every other grid cell as it was, and touches nothing but the voxel
    array.  The hypothesis is the fixed size of the C array. *)
Theorem set_voxel_writes_one_cell (g : AppState) (x y z value : Z) :
  length (voxels g) = Z.to_nat GRID_SIZE ->
  (inside_grid x y z = false -> set_voxel g x y z value = g) /\
  (inside_grid x y z = true ->
     get_voxel (voxels (set_voxel g x y z value)) x y z = Some value /\
     length (voxels (set_voxel g x y z value)) = length (voxels g) /\
     (forall i : nat, i <> Z.to_nat (voxel_index x y z) ->
        voxels (set_voxel g x y z value) !! i = voxels g !! i) /\
     (forall x' y' z', inside_grid x' y' z' = true -> (x', y', z') <> (x, y, z) ->
        get_voxel (voxels (set_voxel g x y z value)) x' y' z' =
        get_voxel (voxels g) x' y' z') /\
     set_voxel g x y z value = with_voxels g (voxels (set_voxel g x y z value))).
Proof.
  intros Hlen. unfold set_voxel. split; intros Hin; rewrite Hin; [reflexivity|].
  simpl. unfold get_voxel, store_voxel.
  pose proof (voxel_index_bounds _ _ _ Hin) as Hb.
  repeat split.
  - apply list_lookup_insert_eq. rewrite Hlen. lia.
  - apply length_insert.
  - intros i Hi. apply list_lookup_insert_ne. congruence.
  - intros x' y' z' Hin' Hne. apply list_lookup_insert_ne.
    intros Heq. apply Hne.
    pose proof (voxel_index_bounds _ _ _ Hin') as Hb'.
    assert (voxel_index x y z = voxel_index x' y' z') as E by lia.
    destruct (voxel_index_inj _ _ _ _ _ _ Hin Hin' E) as (-> & -> & ->). reflexivity.
Qed.

Lemma set_voxel_writes_one_cell_witness :
  length (voxels Demo.blank) = Z.to_nat GRID_SIZE /\
  get_voxel (voxels (set_voxel Demo.blank 8 1 8 2)) 8 1 8 = Some 2 /\
  set_voxel Demo.blank 24 1 8 2 = Demo.blank.
Proof.
  pose proof (set_voxel_writes_one_cell Demo.blank 8 1 8 2 eq_refl) as [_ Hin].
  pose proof (set_voxel_writes_one_cell Demo.blank 24 1 8 2 eq_refl) as [Hout _].
  split; [reflexivity|]. split.
  - apply Hin. reflexivity.
  - apply Hout. reflexivity.
Defined.

(** ** The traversal loop *)

Lemma dda_advance_nsteps r s : nsteps (dda_advance r s) = nsteps s.
Proof. unfold dda_advance. destruct (dda_axis s); reflexivity. Qed.

Lemma dda_loop_exit vox r n s :
  loop_exit r s = true ->
  dda_loop vox r n s = (miss_inside (dir_y r) (nsteps s), []).
Proof.
  unfold loop_exit. intros H. destruct n; simpl; [reflexivity|]. rewrite H. reflexivity.
Qed.

Lemma dda_loop_hit vox r n s id :
  loop_exit r s = false ->
  default 0 (vox !! Z.to_nat (cell_index s)) = id -> id <> 0 ->
  dda_loop vox r (S n) s =
    (mkTraceResult true true (nsteps s + 1) (shade_hit id (normal s) (cell_y s)),
     [EvLoad (cell_index s)]).
Proof.
  unfold loop_exit, cell_index. intros H Hid Hne. simpl. rewrite H.
  unfold mbind, Tr_bind, load_voxel. simpl. rewrite Hid.
  destruct (Z.eqb_spec id 0); [contradiction|]. reflexivity.
Qed.

Lemma dda_loop_empty vox r n s :
  loop_exit r s = false ->
  default 0 (vox !! Z.to_nat (cell_index s)) = 0 ->
  dda_loop vox r (S n) s =
    (result (dda_loop vox r n (dda_advance r (count_step s))),
     EvLoad (cell_index s) :: events (dda_loop vox r n (dda_advance r (count_step s)))).
Proof.
  unfold loop_exit, cell_index. intros H Hid. simpl. rewrite H.
  unfold mbind, Tr_bind, load_voxel. simpl. rewrite Hid. simpl.
  fold (count_step s).
  destruct (dda_loop vox r n (dda_advance r (count_step s))); reflexivity.
Qed.

(** The three ways an iteration can go. *)
Lemma dda_loop_cases vox r n s :
  (loop_exit r s = true /\
     dda_loop vox r (S n) s = (miss_inside (dir_y r) (nsteps s), [])) \/
  (loop_exit r s = false /\ default 0 (vox !! Z.to_nat (cell_index s)) <> 0 /\
     dda_loop vox r (S n) s =
       (mkTraceResult true true (nsteps s + 1)
          (shade_hit (default 0 (vox !! Z.to_nat (cell_index s))) (normal s) (cell_y s)),
        [EvLoad (cell_index s)])) \/
  (loop_exit r s = false /\ default 0 (vox !! Z.to_nat (cell_index s)) = 0 /\
     dda_loop vox r (S n) s =
       (result (dda_loop vox r n (dda_advance r (count_step s))),
        EvLoad (cell_index s) :: events (dda_loop vox r n (dda_advance r (count_step s))))).
Proof.
  destruct (loop_exit r s) eqn:Hex.
  - left. split; [reflexivity|]. apply dda_loop_exit; assumption.
  - right. destruct (Z.eq_dec (default 0 (vox !! Z.to_nat (cell_index s))) 0) as [Hz|Hnz].
    + right. repeat split; try assumption. apply dda_loop_empty; assumption.
    + left. repeat split; try assumption. eapply dda_loop_hit; eauto.
Qed.

(** Every iteration tests at most one voxel, so the count grows by at
    most the number of iterations. *)
Lemma dda_loop_steps vox r n s :
  nsteps s <= steps (result (dda_loop vox r n s)) <= nsteps s + Z.of_nat n.
Proof.
  revert s. induction n as [|n IH]; intros s.
  - simpl. lia.
  - destruct (dda_loop_cases vox r n s) as [[_ E]|[(_ & _ & E)|(_ & _ & E)]];
      rewrite E; unfold result; simpl; try lia.
    specialize (IH (dda_advance r (count_step s))).
    rewrite dda_advance_nsteps in IH. unfold result in IH. simpl in IH. lia.
Qed.

(** An iteration that is not stopped by the guard counts its voxel. *)
Lemma dda_loop_first_step vox r n s :
  loop_exit r s = false ->
  nsteps s + 1 <= steps (result (dda_loop vox r (S n) s)).
Proof.
  intros Hex.
  destruct (dda_loop_cases vox r n s) as [[E _]|[(_ & _ & E)|(_ & _ & E)]].
  - congruence.
  - rewrite E. unfold result; simpl. lia.
  - rewrite E. unfold result at 1; simpl.
    pose proof (dda_loop_steps vox r n (dda_advance r (count_step s))) as H.
    rewrite dda_advance_nsteps in H. simpl in H. lia.
Qed.

Lemma dda_loop_loads vox r n s : Forall load_in_grid (events (dda_loop vox r n s)).
Proof.
  revert s. induction n as [|n IH]; intros s.
  - simpl. constructor.
  - assert (loop_exit r s = false -> load_in_grid (EvLoad (cell_index s))) as Hload.
    { unfold loop_exit. intros Hex. apply orb_false_iff in Hex as [Hin _].
      apply negb_false_iff in Hin. split.
      - exists (cell_x s), (cell_y s), (cell_z s). split; [assumption|reflexivity].
      - apply voxel_index_bounds; assumption. }
    destruct (dda_loop_cases vox r n s) as [[_ E]|[(Hex & _ & E)|(Hex & _ & E)]];
      rewrite E; unfold events; simpl.
    + constructor.
    + constructor; [auto|constructor].
    + constructor; [auto|]. apply IH.
Qed.

(** ** Clipping and the initial state *)

Lemma axis_slab_parallel orig dir mn mx tmin tmax :
  F32.ltb (F32.fabsf dir) Lit.f_1em6 = true ->
  axis_slab orig dir mn mx tmin tmax =
    ((negb (F32.ltb orig mn || F32.ltb mx orig), (tmin, tmax)), []).
Proof. unfold axis_slab. intros ->. reflexivity. Qed.

Lemma axis_slab_crossing orig dir mn mx tmin tmax :
  F32.ltb (F32.fabsf dir) Lit.f_1em6 = false ->
  axis_slab orig dir mn mx tmin tmax =
    ((true, (F32.fmaxf tmin (fst (slab_interval orig dir mn mx)),
             F32.fminf tmax (snd (slab_interval orig dir mn mx)))),
     [EvDiv Lit.f_1 dir]).
Proof.
  unfold axis_slab, slab_interval. intros ->.
  unfold mbind, Tr_bind, fdiv. simpl.
  destruct (F32.ltb _ _); reflexivity.
Qed.


Lemma ray_aabb_success ro rd t0 t1 :
  result (ray_aabb ro rd) = Some (t0, t1) ->
  F32.ltb t1 (F32.fmaxf t0 Lit.f_0) = false.
Proof.
  unfold ray_aabb. rewrite !result_bind.
  destruct (result (axis_slab (vx ro) _ _ _ _ _)) as [[] [a1 b1]]; [|discriminate].
  simpl negb. cbv iota. rewrite !result_bind.
  destruct (result (axis_slab (vy ro) _ _ _ _ _)) as [[] [a2 b2]]; [|discriminate].
  simpl negb. cbv iota. rewrite !result_bind.
  destruct (result (axis_slab (vz ro) _ _ _ _ _)) as [[] [a3 b3]]; [|discriminate].
  simpl negb. cbv iota.
  destruct (F32.ltb b3 (F32.fmaxf a3 Lit.f_0)) eqn:E; [discriminate|].
  intros H. inversion H; subst. assumption.
Qed.

Lemma start_cell_range pf a hi : 0 <= hi -> 0 <= start_cell pf a hi <= hi.
Proof. intros. unfold start_cell. apply clamp_i32_range. assumption. Qed.

Lemma axis_crossing_events t nb p d :
  Forall load_in_grid (events (axis_crossing t nb p d)).
Proof.
  unfold axis_crossing. destruct (F32.ltb _ _).
  - unfold mbind, Tr_bind, fdiv, events. simpl. repeat constructor.
  - constructor.
Qed.

Lemma dda_init_state pf ro rd t0 t1 :
  let rs := result (dda_init pf ro rd t0 t1) in
  inside_grid (cell_x (snd rs)) (cell_y (snd rs)) (cell_z (snd rs)) = true /\
  t_cur (snd rs) = F32.fmaxf t0 Lit.f_0 /\
  t_exit (fst rs) = t1 /\
  dir_y (fst rs) = vy rd /\
  nsteps (snd rs) = 0 /\
  normal (snd rs) = mkIV3 0 1 0.
Proof.
  unfold dda_init. cbv zeta.
  rewrite result_bind. destruct (result (axis_crossing _ _ _ (vx rd))) as [mx dx].
  rewrite result_bind. destruct (result (axis_crossing _ _ _ (vy rd))) as [my dy].
  rewrite result_bind. destruct (result (axis_crossing _ _ _ (vz rd))) as [mz dz].
  rewrite result_ret. simpl.
  repeat split; try reflexivity.
  apply inside_grid_spec.
  pose proof (start_cell_range pf (vx (Vector3Add ro (Vector3Scale rd (F32.fmaxf t0 Lit.f_0)))) (GRID_X - 1)).
  pose proof (start_cell_range pf (vy (Vector3Add ro (Vector3Scale rd (F32.fmaxf t0 Lit.f_0)))) (GRID_Y - 1)).
  pose proof (start_cell_range pf (vz (Vector3Add ro (Vector3Scale rd (F32.fmaxf t0 Lit.f_0)))) (GRID_Z - 1)).
  unfold GRID_X, GRID_Y, GRID_Z in *. simpl in *. lia.
Qed.

Lemma dda_init_events pf ro rd t0 t1 :
  Forall load_in_grid (events (dda_init pf ro rd t0 t1)).
Proof.
  unfold dda_init. cbv zeta.
  rewrite events_bind. apply Forall_app. split; [apply axis_crossing_events|].
  destruct (result (axis_crossing _ _ _ (vx rd))) as [mx dx].
  rewrite events_bind. apply Forall_app. split; [apply axis_crossing_events|].
  destruct (result (axis_crossing _ _ _ (vy rd))) as [my dy].
  rewrite events_bind. apply Forall_app. split; [apply axis_crossing_events|].
  destruct (result (axis_crossing _ _ _ (vz rd))) as [mz dz].
  constructor.
Qed.


Lemma axis_slab_no_load orig dir mn mx tmin tmax :
  Forall load_in_grid (events (axis_slab orig dir mn mx tmin tmax)).
Proof.
  destruct (F32.ltb (F32.fabsf dir) Lit.f_1em6) eqn:E.
  - rewrite axis_slab_parallel by assumption. constructor.
  - rewrite axis_slab_crossing by assumption. repeat constructor.
Qed.

Lemma ray_aabb_no_load ro rd : Forall load_in_grid (events (ray_aabb ro rd)).
Proof.
  unfold ray_aabb. cbv zeta.
  rewrite events_bind. apply Forall_app. split; [apply axis_slab_no_load|].
  destruct (result (axis_slab (vx ro) _ _ _ _ _)) as [[] [a1 b1]]; simpl negb; cbv iota;
    [|constructor].
  rewrite events_bind. apply Forall_app. split; [apply axis_slab_no_load|].
  destruct (result (axis_slab (vy ro) _ _ _ _ _)) as [[] [a2 b2]]; simpl negb; cbv iota;
    [|constructor].
  rewrite events_bind. apply Forall_app. split; [apply axis_slab_no_load|].
  destruct (result (axis_slab (vz ro) _ _ _ _ _)) as [[] [a3 b3]]; simpl negb; cbv iota;
    [|constructor].
  destruct (F32.ltb _ _); constructor.
Qed.

(** The traversal of a clipped ray, spelled out. *)
Lemma trace_clipped pf vox ro rd t0 t1 :
  result (ray_aabb ro rd) = Some (t0, t1) ->
  result (trace_ray_amanatides_woo pf vox ro rd) =
    result (dda_loop vox (fst (result (dda_init pf ro rd t0 t1))) 256
                     (snd (result (dda_init pf ro rd t0 t1)))).
Proof.
  intros H. unfold trace_ray_amanatides_woo.
  rewrite result_bind, H, result_bind.
  destruct (result (dda_init pf ro rd t0 t1)); reflexivity.
Qed.

Lemma trace_missed pf vox ro rd :
  result (ray_aabb ro rd) = None ->
  result (trace_ray_amanatides_woo pf vox ro rd) = miss_outside (vy rd).
Proof.
  intros H. unfold trace_ray_amanatides_woo. rewrite result_bind, H. reflexivity.
Qed.

(** The guard does not stop the first iteration of a clipped ray. *)
Lemma first_iteration_enters pf ro rd t0 t1 :
  result (ray_aabb ro rd) = Some (t0, t1) ->
  loop_exit (fst (result (dda_init pf ro rd t0 t1)))
            (snd (result (dda_init pf ro rd t0 t1))) = false.
Proof.
  intros H. pose proof (dda_init_state pf ro rd t0 t1) as (Hin & Ht & Hex & _).
  unfold loop_exit. rewrite Hin, Ht, Hex. simpl.
  apply ray_aabb_success with (ro := ro) (rd := rd). assumption.
Qed.

(** C5 (bounds-checked reads): every load from the voxel array that a
    traversal performs reads the element of a cell for which
    [inside_grid] holds, so its index lies in [0, GRID_SIZE); and an
    iteration that finds the cell outside the grid ends the loop without
    loading anything. *)
Theorem trace_loads_inside_grid (pf : Platform) (vox : list Z) (ro rd : Vector3 float) :
  Forall load_in_grid (events (trace_ray_amanatides_woo pf vox ro rd)) /\
  (forall (r : DdaRay) (n : nat) (s : Dda),
     inside_grid (cell_x s) (cell_y s) (cell_z s) = false ->
     dda_loop vox r n s = (miss_inside (dir_y r) (nsteps s), [])).
Proof.
  split.
  - unfold trace_ray_amanatides_woo.
    rewrite events_bind. apply Forall_app. split; [apply ray_aabb_no_load|].
    destruct (result (ray_aabb ro rd)) as [[t0 t1]|]; [|constructor].
    rewrite events_bind. apply Forall_app. split; [apply dda_init_events|].
    destruct (result (dda_init pf ro rd t0 t1)) as [r s]. apply dda_loop_loads.
  - intros r n s Hout. apply dda_loop_exit. unfold loop_exit. rewrite Hout. reflexivity.
Qed.

(** C10 (normal of an immediate hit): when the clip succeeds and the
    entry voxel is occupied, the traversal returns a hit after one step,
    shaded with the initial normal (0, 1, 0) whatever the ray is. *)
Theorem entry_hit_uses_default_normal (pf : Platform) (vox : list Z)
    (ro rd : Vector3 float) (t0 t1 : float) :
  result (ray_aabb ro rd) = Some (t0, t1) ->
  let s := snd (result (dda_init pf ro rd t0 t1)) in
  let id := default 0 (vox !! Z.to_nat (cell_index s)) in
  id <> 0 ->
  result (trace_ray_amanatides_woo pf vox ro rd) =
    mkTraceResult true true 1 (shade_hit id (mkIV3 0 1 0) (cell_y s)).
Proof.
  intros H s id Hid. rewrite (trace_clipped pf vox ro rd t0 t1 H).
  pose proof (first_iteration_enters pf ro rd t0 t1 H) as Hex.
  pose proof (dda_init_state pf ro rd t0 t1) as (_ & _ & _ & _ & Hn & Hnorm).
  fold s in Hex, Hn, Hnorm |- *.
  change 256%nat with (S 255).
  rewrite (dda_loop_hit vox _ 255 s id Hex eq_refl Hid).
  unfold result; simpl. rewrite Hn, Hnorm. reflexivity.
Qed.

Lemma entry_hit_uses_default_normal_witness :
  result (ray_aabb Demo.low_origin Demo.low_dir) = Some (F32.of_int 6, F32.of_int 30) /\
  result (trace_ray_amanatides_woo Demo.platform (voxels Demo.scene)
            Demo.low_origin Demo.low_dir) =
    mkTraceResult true true 1 (shade_hit 1 (mkIV3 0 1 0) 0).
Proof.
  assert (result (ray_aabb Demo.low_origin Demo.low_dir)
          = Some (F32.of_int 6, F32.of_int 30)) as Hclip by (vm_compute; reflexivity).
  split; [exact Hclip|].
  pose proof (entry_hit_uses_default_normal Demo.platform (voxels Demo.scene)
                Demo.low_origin Demo.low_dir _ _ Hclip) as H.
  cbv zeta in H.
  assert (default 0 (voxels Demo.scene !! Z.to_nat (cell_index
            (snd (result (dda_init Demo.platform Demo.low_origin Demo.low_dir
                            (F32.of_int 6) (F32.of_int 30)))))) = 1) as Eid
    by (vm_compute; reflexivity).
  assert (cell_y (snd (result (dda_init Demo.platform Demo.low_origin Demo.low_dir
                                 (F32.of_int 6) (F32.of_int 30)))) = 0) as Ey
    by (vm_compute; reflexivity).
  rewrite Eid, Ey in H. apply H. discriminate.
Defined.

(** ** The stepping rule *)

(** C1, as the specification states it, fails: for the diagonal ray the
    x and y crossings are equally near (and nearer than z), and the code
    advances y, where x-before-y would advance x. *)
Lemma tie_between_x_and_y_advances_y :
  t_max_x Demo.diag_state = t_max_y Demo.diag_state /\
  F32.ltb (t_max_x Demo.diag_state) (t_max_z Demo.diag_state) = true /\
  spec_axis Demo.diag_state = AxisX /\
  dda_axis Demo.diag_state = AxisY /\
  dda_axis Demo.diag_state <> spec_axis Demo.diag_state.
Proof.
  vm_compute.
  split; [reflexivity|]. split; [reflexivity|]. split; [reflexivity|].
  split; [reflexivity|discriminate].
Qed.

(** C1, amended: on numbers, the axis advanced has the smallest crossing
    distance, and among equal smallest distances the later axis wins: x
    is advanced only when strictly smallest, y when not above x and
    strictly below z, z whenever it is not above the other two.  The
    advance moves the cell on that axis alone, by the axis' step, takes
    that crossing distance as the new [t], increments it by the axis'
    delta and records the face normal opposite to the step. *)
Theorem dda_axis_smallest_later_axis_wins_ties (r : DdaRay) (s : Dda) :
  F32.is_nan (t_max_x s) = false ->
  F32.is_nan (t_max_y s) = false ->
  F32.is_nan (t_max_z s) = false ->
  let a := dda_axis s in
  let s' := dda_advance r s in
  (forall b, F32.leb (t_max_of s a) (t_max_of s b) = true) /\
  (a = AxisX <->
     F32.ltb (t_max_x s) (t_max_y s) = true /\ F32.ltb (t_max_x s) (t_max_z s) = true) /\
  (a = AxisY <->
     F32.leb (t_max_y s) (t_max_x s) = true /\ F32.ltb (t_max_y s) (t_max_z s) = true) /\
  (a = AxisZ <->
     F32.leb (t_max_z s) (t_max_x s) = true /\ F32.leb (t_max_z s) (t_max_y s) = true) /\
  (forall b, cell_of s' b = if axis_eqb a b then cell_of s b + step_of r b else cell_of s b) /\
  (forall b, t_max_of s' b =
             if axis_eqb a b then F32.add (t_max_of s b) (t_delta_of r b) else t_max_of s b) /\
  t_cur s' = t_max_of s a /\
  (forall b, normal_of s' b = if axis_eqb a b then - step_of r b else 0).
Proof.
  intros Nx Ny Nz a s'.
  assert (Hord :
    (forall b, F32.leb (t_max_of s a) (t_max_of s b) = true) /\
    (a = AxisX <->
       F32.ltb (t_max_x s) (t_max_y s) = true /\ F32.ltb (t_max_x s) (t_max_z s) = true) /\
    (a = AxisY <->
       F32.leb (t_max_y s) (t_max_x s) = true /\ F32.ltb (t_max_y s) (t_max_z s) = true) /\
    (a = AxisZ <->
       F32.leb (t_max_z s) (t_max_x s) = true /\ F32.leb (t_max_z s) (t_max_y s) = true)).
  { subst a. unfold dda_axis.
    destruct (F32.ltb (t_max_x s) (t_max_y s)) eqn:Exy;
    destruct (F32.ltb (t_max_x s) (t_max_z s)) eqn:Exz;
    destruct (F32.ltb (t_max_y s) (t_max_z s)) eqn:Eyz; simpl;
    (split; [intros []; simpl|]);
    repeat split; intros; try discriminate; try reflexivity;
    repeat match goal with H : _ /\ _ |- _ => destruct H end;
    try (exfalso; float_order; fail); try (float_order; fail). }
  destruct Hord as (H1 & H2 & H3 & H4).
  split; [exact H1|]. split; [exact H2|]. split; [exact H3|]. split; [exact H4|].
  subst a s'. unfold dda_advance.
  destruct (dda_axis s); repeat split; try (intros []); reflexivity.
Qed.

Lemma dda_axis_smallest_later_axis_wins_ties_witness :
  F32.is_nan (t_max_x Demo.diag_state) = false /\
  F32.is_nan (t_max_y Demo.diag_state) = false /\
  F32.is_nan (t_max_z Demo.diag_state) = false /\
  (dda_axis Demo.diag_state = AxisY <->
     F32.leb (t_max_y Demo.diag_state) (t_max_x Demo.diag_state) = true /\
     F32.ltb (t_max_y Demo.diag_state) (t_max_z Demo.diag_state) = true).
Proof.
  pose proof (dda_axis_smallest_later_axis_wins_ties Demo.diag_ray Demo.diag_state
                eq_refl eq_refl eq_refl) as (_ & _ & Hy & _).
  split; [reflexivity|]. split; [reflexivity|]. split; [reflexivity|]. exact Hy.
Defined.

(** ** The parallel case of the slab test *)

Lemma zero_below_eps (d : float) :
  F32.is_zero d = true -> F32.ltb (F32.fabsf d) Lit.f_1em6 = true.
Proof. destruct d; try discriminate. reflexivity. Qed.








(** ** The render loops *)

Lemma for_range_inv {St : Type} (P : Z -> St -> Prop) (body : Z -> St -> St) (n : nat) :
  forall lo s,
    P lo s ->
    (forall i a, lo <= i < lo + Z.of_nat n -> P i a -> P (i + 1) (body i a)) ->
    P (lo + Z.of_nat n) (for_range lo n body s).
Proof.
  induction n as [|n IH]; intros lo s H0 Hstep.
  - simpl. replace (lo + Z.of_nat 0) with lo by lia. assumption.
  - simpl for_range. replace (lo + Z.of_nat (S n)) with ((lo + 1) + Z.of_nat n) by lia.
    apply IH.
    + apply Hstep; [lia|assumption].
    + intros i a Hi. apply Hstep. lia.
Qed.

Lemma for_range_rel {St : Type} (R : Z -> St -> St -> Prop) (body : Z -> St -> St) (n : nat) :
  forall lo s1 s2,
    R lo s1 s2 ->
    (forall i a1 a2, lo <= i < lo + Z.of_nat n -> R i a1 a2 ->
                     R (i + 1) (body i a1) (body i a2)) ->
    R (lo + Z.of_nat n) (for_range lo n body s1) (for_range lo n body s2).
Proof.
  induction n as [|n IH]; intros lo s1 s2 H0 Hstep.
  - simpl. replace (lo + Z.of_nat 0) with lo by lia. assumption.
  - simpl for_range. replace (lo + Z.of_nat (S n)) with ((lo + 1) + Z.of_nat n) by lia.
    apply IH.
    + apply Hstep; [lia|assumption].
    + intros i a1 a2 Hi. apply Hstep. lia.
Qed.

Lemma count_ray_fixed st tr : fixed_fields (count_ray st tr) = fixed_fields st.
Proof. reflexivity. Qed.

Lemma render_row_fixed pf vox cam dx n :
  forall ray idx acc,
    fixed_fields (fst (render_row pf vox cam dx n ray idx acc)) = fixed_fields (fst acc).
Proof.
  induction n as [|n IH]; intros ray idx acc; simpl; [reflexivity|].
  rewrite IH. unfold render_pixel. simpl. apply count_ray_fixed.
Qed.

(** The accumulated stats keep the ray count and the cleared float
    fields of the initial record. *)
Lemma render_rows_fixed pf vox cam c (n : nat) (acc : FrameStats * list Color) :
  fixed_fields
    (fst (for_range 0 n
            (fun y acc => render_row pf vox cam (ray_step_x c) (Z.to_nat IMG_W)
                                     (row_first_ray c y) (y * IMG_W) acc) acc))
  = fixed_fields (fst acc).
Proof.
  apply (for_range_inv (fun _ a => fixed_fields (fst a) = fixed_fields (fst acc))).
  - reflexivity.
  - intros i a _ Ha. rewrite render_row_fixed. assumption.
Qed.

Lemma fixed_fields_eq (a b : FrameStats) :
  fixed_fields a = fixed_fields b ->
  rays a = rays b /\ rays_per_sec a = rays_per_sec b /\ steps_per_sec a = steps_per_sec b.
Proof. unfold fixed_fields. intros H. injection H as Hr Ha Hh Hp Hs. auto. Qed.

Lemma finish_stats_throughput (st : FrameStats) (dt : float) :
  rays (finish_stats st dt) = rays st /\
  total_steps (finish_stats st dt) = total_steps st /\
  rays_per_sec (finish_stats st dt) =
    (if F32.ltb Lit.f_1em6 dt then F32.div (F32.of_int (rays st)) dt else rays_per_sec st) /\
  steps_per_sec (finish_stats st dt) =
    (if F32.ltb Lit.f_1em6 dt then F32.div (F32.of_int (total_steps st)) dt
     else steps_per_sec st).
Proof.
  unfold finish_stats.
  destruct (rays st >? 0); destruct (F32.ltb Lit.f_1em6 dt); repeat split; reflexivity.
Qed.

(** What [render_voxel_image] returns as throughput. *)
Lemma render_throughput pf g dt :
  let st := snd (render_voxel_image pf g dt) in
  rays st = IMG_W * IMG_H /\
  rays_per_sec st =
    (if F32.ltb Lit.f_1em6 dt then F32.div (F32.of_int (IMG_W * IMG_H)) dt else Lit.f_0) /\
  steps_per_sec st =
    (if F32.ltb Lit.f_1em6 dt then F32.div (F32.of_int (total_steps st)) dt else Lit.f_0).
Proof.
  unfold render_voxel_image. cbv zeta. cbn [snd].
  match goal with |- context [for_range 0 ?n ?body ?acc] =>
    pose proof (fixed_fields_eq _ _
                  (render_rows_fixed pf (voxels g)
                     (camera_position pf (time_s g) (freeze_camera g))
                     (camera_frame pf (camera_position pf (time_s g) (freeze_camera g)))
                     n acc)) as Hfix;
    cbn [fst rays rays_per_sec steps_per_sec] in Hfix;
    revert Hfix; generalize (for_range 0 n body acc)
  end.
  intros a (Hr & Hp & Hs).
  destruct (finish_stats_throughput (fst a) dt) as (Fr & Ft & Fp & Fs).
  rewrite Fr, Fp, Fs, Ft, Hr, Hp, Hs. repeat split; reflexivity.
Qed.

(** C7 (throughput guard): when the frame time is not greater than 1e-6
    (zero, tiny, negative or NaN), the returned stats have
    [rays_per_sec] and [steps_per_sec] equal to +0.0; when it is greater,
    they are the ray count and the step total divided by the frame
    time. *)
Theorem render_throughput_guarded (pf : Platform) (g : AppState) (dt : float) :
  let st := snd (render_voxel_image pf g dt) in
  (F32.ltb Lit.f_1em6 dt = false ->
     rays_per_sec st = Lit.f_0 /\ steps_per_sec st = Lit.f_0) /\
  (F32.ltb Lit.f_1em6 dt = true ->
     rays_per_sec st = F32.div (F32.of_int (rays st)) dt /\
     steps_per_sec st = F32.div (F32.of_int (total_steps st)) dt).
Proof.
  intros st. destruct (render_throughput pf g dt) as (Hr & Hp & Hs). fold st in Hr, Hp, Hs.
  split; intros Hdt; rewrite Hdt in Hp, Hs; rewrite ?Hr; split; assumption.
Qed.

Lemma render_throughput_guarded_witness :
  F32.ltb Lit.f_1em6 Lit.f_0 = false /\
  F32.ltb Lit.f_1em6 Demo.dt_64 = true /\
  rays_per_sec (snd (render_voxel_image Demo.platform Demo.scene Lit.f_0)) = Lit.f_0 /\
  steps_per_sec (snd (render_voxel_image Demo.platform Demo.scene Lit.f_0)) = Lit.f_0 /\
  rays_per_sec (snd (render_voxel_image Demo.platform Demo.scene Demo.dt_64)) =
    F32.of_int (57600 * 64).
Proof.
  split; [reflexivity|]. split; [reflexivity|].
  pose proof (render_throughput_guarded Demo.platform Demo.scene Lit.f_0) as [H0 _].
  pose proof (render_throughput_guarded Demo.platform Demo.scene Demo.dt_64) as [_ H1].
  destruct (H0 eq_refl) as [Hr Hs]. destruct (H1 eq_refl) as [Hr1 _].
  split; [exact Hr|]. split; [exact Hs|].
  rewrite Hr1.
  destruct (render_throughput Demo.platform Demo.scene Demo.dt_64) as (-> & _ & _).
  vm_compute. reflexivity.
Defined.

(** ** Determinism of a frame *)

Lemma render_pixel_agree pf vox cam ray idx a1 a2 :
  0 <= idx -> agree_upto idx a1 a2 ->
  agree_upto (idx + 1) (render_pixel pf vox cam ray idx a1) (render_pixel pf vox cam ray idx a2).
Proof.
  intros Hidx (Hst & Hlen & Htake). unfold render_pixel, agree_upto. cbn [fst snd].
  split; [rewrite Hst; reflexivity|]. split; [rewrite !length_insert; assumption|].
  set (c := to_color pf (col (result (trace_ray_amanatides_woo pf vox cam (Vector3Normalize ray))))).
  replace (Z.to_nat (idx + 1)) with (S (Z.to_nat idx)) by lia.
  destruct (Nat.lt_ge_cases (Z.to_nat idx) (length (snd a1))) as [Hlt|Hge].
  - rewrite (take_S_r _ _ c) by (apply list_lookup_insert_eq; assumption).
    rewrite (take_S_r _ _ c) by (apply list_lookup_insert_eq; rewrite <- Hlen; assumption).
    rewrite !take_insert_ge by lia. rewrite Htake. reflexivity.
  - rewrite !list_insert_ge by (rewrite <- ?Hlen; assumption).
    rewrite take_ge in Htake by assumption.
    rewrite (take_ge (snd a2)) in Htake by (rewrite <- Hlen; assumption).
    rewrite Htake. reflexivity.
Qed.

Lemma render_row_agree pf vox cam dx n :
  forall ray idx a1 a2,
    0 <= idx -> agree_upto idx a1 a2 ->
    agree_upto (idx + Z.of_nat n)
      (render_row pf vox cam dx n ray idx a1) (render_row pf vox cam dx n ray idx a2).
Proof.
  induction n as [|n IH]; intros ray idx a1 a2 Hidx H.
  - simpl. replace (idx + Z.of_nat 0) with idx by lia. assumption.
  - simpl render_row. replace (idx + Z.of_nat (S n)) with ((idx + 1) + Z.of_nat n) by lia.
    apply IH; [lia|]. apply render_pixel_agree; assumption.
Qed.

(** After the rows [0 .. n-1] the first [n * IMG_W] pixels no longer
    depend on what the buffer held before. *)
Lemma render_rows_agree pf vox cam c (n : nat) a1 a2 :
  agree_upto 0 a1 a2 ->
  agree_upto (Z.of_nat n * IMG_W)
    (for_range 0 n (fun y acc => render_row pf vox cam (ray_step_x c) (Z.to_nat IMG_W)
                                            (row_first_ray c y) (y * IMG_W) acc) a1)
    (for_range 0 n (fun y acc => render_row pf vox cam (ray_step_x c) (Z.to_nat IMG_W)
                                            (row_first_ray c y) (y * IMG_W) acc) a2).
Proof.
  intros H0.
  pose proof (for_range_rel (fun y b1 b2 => agree_upto (y * IMG_W) b1 b2)
                (fun y acc => render_row pf vox cam (ray_step_x c) (Z.to_nat IMG_W)
                                         (row_first_ray c y) (y * IMG_W) acc)
                n 0 a1 a2) as H.
  cbv beta in H. replace (0 + Z.of_nat n) with (Z.of_nat n) in H by lia.
  apply H; [exact H0|].
  intros y b1 b2 Hy Hb.
  replace ((y + 1) * IMG_W) with (y * IMG_W + Z.of_nat (Z.to_nat IMG_W))
    by (unfold IMG_W; lia).
  apply render_row_agree; [unfold IMG_W; lia|assumption].
Qed.

Lemma camera_position_frozen pf t1 t2 :
  camera_position pf t1 true = camera_position pf t2 true.
Proof. reflexivity. Qed.

(** C8 (determinism): two invocations with the same frame time, the
    same scene time, the same freeze flag and the same voxel grid return
    equal pixel buffers and equal stats, whatever the pixel buffer and
    the remaining fields of the state held before; with the camera
    frozen the scene time is irrelevant as well.  The hypotheses on the
    lengths state the fixed size of the C pixel array. *)
Theorem render_voxel_image_deterministic (pf : Platform) (g1 g2 : AppState) (dt : float) :
  length (pixels g1) = Z.to_nat (IMG_W * IMG_H) ->
  length (pixels g2) = Z.to_nat (IMG_W * IMG_H) ->
  voxels g1 = voxels g2 ->
  freeze_camera g1 = freeze_camera g2 ->
  time_s g1 = time_s g2 \/ freeze_camera g1 = true ->
  pixels (fst (render_voxel_image pf g1 dt)) = pixels (fst (render_voxel_image pf g2 dt)) /\
  snd (render_voxel_image pf g1 dt) = snd (render_voxel_image pf g2 dt).
Proof.
  intros L1 L2 Hvox Hfr Htime.
  assert (camera_position pf (time_s g1) (freeze_camera g1) =
          camera_position pf (time_s g2) (freeze_camera g2)) as Hcam.
  { destruct Htime as [Ht|Hf].
    - rewrite Ht, Hfr. reflexivity.
    - rewrite <- Hfr, Hf. apply camera_position_frozen. }
  unfold render_voxel_image. cbv zeta. cbn [fst snd pixels with_pixels].
  rewrite <- Hvox, <- Hcam.
  set (cam := camera_position pf (time_s g1) (freeze_camera g1)).
  set (c := camera_frame pf cam).
  set (st0 := mkFrameStats (IMG_W * IMG_H) 0 0 0 0 Lit.f_0 Lit.f_0 Lit.f_0 Lit.f_0).
  pose proof (render_rows_agree pf (voxels g1) cam c (Z.to_nat IMG_H)
                (st0, pixels g1) (st0, pixels g2)) as H.
  destruct H as (Hst & Hlen & Htake).
  { unfold agree_upto. cbn [fst snd]. split; [reflexivity|]. split; [congruence|reflexivity]. }
  set (b1 := for_range 0 (Z.to_nat IMG_H) _ (st0, pixels g1)) in *.
  set (b2 := for_range 0 (Z.to_nat IMG_H) _ (st0, pixels g2)) in *.
  split; [|rewrite Hst; reflexivity].
  assert (forall n a, length (snd (for_range 0 n
            (fun y acc => render_row pf (voxels g1) cam (ray_step_x c) (Z.to_nat IMG_W)
                                     (row_first_ray c y) (y * IMG_W) acc) a)) = length (snd a))
    as Hkeep.
  { intros n a.
    apply (for_range_inv (fun _ b => length (snd b) = length (snd a))); [reflexivity|].
    intros i b _ Hb. rewrite <- Hb. clear.
    generalize (row_first_ray c i) (i * IMG_W) b. generalize (Z.to_nat IMG_W).
    induction n as [|n IH]; intros ray idx b'; simpl; [reflexivity|].
    rewrite IH. unfold render_pixel. cbn [snd]. apply length_insert. }
  assert (length (snd b1) = Z.to_nat (IMG_W * IMG_H)) as Lb1
    by (subst b1; rewrite Hkeep; exact L1).
  assert (length (snd b2) = Z.to_nat (IMG_W * IMG_H)) as Lb2
    by (subst b2; rewrite Hkeep; exact L2).
  replace (Z.to_nat (Z.of_nat (Z.to_nat IMG_H) * IMG_W)) with (Z.to_nat (IMG_W * IMG_H)) in Htake
    by (unfold IMG_W, IMG_H; lia).
  rewrite take_ge in Htake by (rewrite Lb1; reflexivity).
  rewrite take_ge in Htake by (rewrite Lb2; reflexivity).
  exact Htake.
Qed.

(** [set_voxel] and [build_scene] leave the pixel buffer alone. *)
Lemma set_voxel_pixels g x y z v : pixels (set_voxel g x y z v) = pixels g.
Proof. unfold set_voxel. destruct (inside_grid x y z); reflexivity. Qed.

Lemma for_range_pixels (body : Z -> AppState -> AppState) :
  (forall i g, pixels (body i g) = pixels g) ->
  forall n lo g, pixels (for_range lo n body g) = pixels g.
Proof.
  intros Hb n. induction n as [|n IH]; intros lo g; simpl; [reflexivity|].
  rewrite IH. apply Hb.
Qed.

Lemma build_scene_pixels g : pixels (build_scene g) = pixels g.
Proof.
  unfold build_scene. cbv zeta.
  repeat (rewrite for_range_pixels;
          [|intros; repeat (rewrite ?set_voxel_pixels, ?for_range_pixels; try reflexivity;
                            intros)]).
  reflexivity.
Qed.

Lemma render_voxel_image_deterministic_witness :
  length (pixels Demo.scene) = Z.to_nat (IMG_W * IMG_H) /\
  length (pixels Demo.scene_stale) = Z.to_nat (IMG_W * IMG_H) /\
  time_s Demo.scene <> time_s Demo.scene_stale /\
  pixels (fst (render_voxel_image Demo.platform Demo.scene Demo.dt_64)) =
  pixels (fst (render_voxel_image Demo.platform Demo.scene_stale Demo.dt_64)) /\
  snd (render_voxel_image Demo.platform Demo.scene Demo.dt_64) =
  snd (render_voxel_image Demo.platform Demo.scene_stale Demo.dt_64).
Proof.
  assert (length (pixels Demo.scene) = Z.to_nat (IMG_W * IMG_H)) as L1.
  { unfold Demo.scene. rewrite build_scene_pixels. apply length_replicate. }
  assert (length (pixels Demo.scene_stale) = Z.to_nat (IMG_W * IMG_H)) as L2.
  { apply length_replicate. }
  split; [exact L1|]. split; [exact L2|].
  split; [vm_compute; discriminate|].
  exact (render_voxel_image_deterministic Demo.platform Demo.scene Demo.scene_stale
           Demo.dt_64 L1 L2 eq_refl eq_refl (or_intror eq_refl)).
Defined.

(** ** Incremental against direct ray directions *)


Section ExactScalars.
Context {F : Type} `{Scalar F}.
Variables (zero one : F) (opp : F -> F).
Hypothesis F_ring : ring_theory zero one sc_add sc_mul sc_sub opp eq.
Hypothesis of_int_0 : sc_of_int 0 = zero.
Hypothesis of_int_succ : forall n : Z, sc_of_int (n + 1) = sc_add (sc_of_int n) one.

Add Ring F_ring_inst : F_ring.

Lemma v3_eq (a b : Vector3 F) :
  vx a = vx b -> vy a = vy b -> vz a = vz b -> a = b.
Proof. destruct a, b; simpl; intros -> -> ->; reflexivity. Qed.

(** [n] additions of [dx] add [n * dx]. *)
Lemma advance_ray_sum (n : nat) :
  forall ray dx,
    advance_ray n ray dx =
    Vector3Add ray (Vector3Scale dx (sc_of_int (Z.of_nat n))).
Proof.
  induction n as [|n IH]; intros ray dx.
  - simpl advance_ray. change (Z.of_nat 0) with 0. rewrite of_int_0.
    apply v3_eq; simpl; ring.
  - simpl advance_ray. rewrite IH.
    replace (Z.of_nat (S n)) with (Z.of_nat n + 1) by lia. rewrite of_int_succ.
    apply v3_eq; simpl; ring.
Qed.

(** In exact arithmetic (a commutative ring into which the pixel indices
    are injected additively) the accumulated direction of pixel (x, y)
    and the direct evaluation coincide: what separates them in the
    program is rounding alone. *)
Lemma pixel_ray_exact (c : Camera F) (x : nat) (y : Z) :
  pixel_ray c x y = pixel_ray_closed_form c x y.
Proof.
  unfold pixel_ray, pixel_ray_closed_form, row_first_ray, ray_step_x.
  rewrite advance_ray_sum. apply v3_eq; simpl; ring.
Qed.
End ExactScalars.

(** ** Signs of rounded results *)

Lemma shr_1_nonneg mrs : 0 <= shr_m mrs -> 0 <= shr_m (shr_1 mrs).
Proof.
  destruct mrs as [m r s]. simpl. intros Hm.
  destruct m as [|p|p]; [simpl; lia| |lia].
  destruct p; simpl; lia.
Qed.

Lemma iter_pos_shr_1_nonneg p : forall mrs, 0 <= shr_m mrs -> 0 <= shr_m (SpecFloat.iter_pos shr_1 p mrs).
Proof.
  induction p as [p IH|p IH|]; intros mrs Hm; simpl.
  - apply IH, IH, shr_1_nonneg, Hm.
  - apply IH, IH, Hm.
  - apply shr_1_nonneg, Hm.
Qed.

Lemma shr_record_of_loc_m m l : shr_m (shr_record_of_loc m l) = m.
Proof. destruct l as [|[]]; reflexivity. Qed.

Lemma shr_fexp_nonneg m e l :
  0 <= m -> 0 <= shr_m (fst (shr_fexp F32.prec F32.emax m e l)).
Proof.
  intros Hm. unfold shr_fexp, shr.
  destruct (_ - e) as [|p|p]; simpl; try (rewrite shr_record_of_loc_m; assumption).
  apply iter_pos_shr_1_nonneg. rewrite shr_record_of_loc_m. assumption.
Qed.

Lemma round_nearest_even_nonneg m l : 0 <= m -> 0 <= round_nearest_even m l.
Proof.
  intros Hm. unfold round_nearest_even.
  destruct l as [|[]]; try destruct (Z.even m); lia.
Qed.

(** Rounding a non-negative mantissa gives a number with the requested
    sign (a zero, a finite number or an infinity). *)
Lemma binary_round_aux_signed sx m e l :
  0 <= m -> signed sx (binary_round_aux F32.prec F32.emax sx m e l).
Proof.
  intros Hm. unfold binary_round_aux.
  pose proof (shr_fexp_nonneg m e l Hm) as H1.
  destruct (shr_fexp F32.prec F32.emax m e l) as [mrs' e'] eqn:E1. simpl in H1.
  pose proof (shr_fexp_nonneg (round_nearest_even (shr_m mrs') (loc_of_shr_record mrs')) e'
                loc_Exact (round_nearest_even_nonneg _ _ H1)) as H2.
  destruct (shr_fexp F32.prec F32.emax (round_nearest_even _ _) e' loc_Exact) as [mrs'' e''].
  simpl in H2.
  destruct (shr_m mrs'') as [|p|p]; [split; reflexivity| |lia].
  destruct (e'' <=? _); split; reflexivity.
Qed.

(** Without the hypothesis the result may only additionally be a NaN. *)
Lemma binary_round_aux_class sx m e l :
  F32.is_nan (binary_round_aux F32.prec F32.emax sx m e l) = true \/
  signed sx (binary_round_aux F32.prec F32.emax sx m e l).
Proof.
  unfold binary_round_aux.
  destruct (shr_fexp F32.prec F32.emax m e l) as [mrs' e'].
  destruct (shr_fexp F32.prec F32.emax (round_nearest_even _ _) e' loc_Exact) as [mrs'' e''].
  destruct (shr_m mrs'') as [|p|p]; [right; split; reflexivity| |left; reflexivity].
  destruct (e'' <=? _); right; split; reflexivity.
Qed.

Lemma mul_class (x y : float) :
  F32.is_nan (F32.mul x y) = true \/
  signed (xorb (F32.signbit x) (F32.signbit y)) (F32.mul x y).
Proof.
  unfold F32.mul. destruct x as [sx|sx| |sx mx ex], y as [sy|sy| |sy my ey]; simpl;
    try (left; reflexivity); try (right; split; reflexivity).
  apply binary_round_aux_class.
Qed.

Lemma div_class (x y : float) :
  F32.is_nan (F32.div x y) = true \/
  signed (xorb (F32.signbit x) (F32.signbit y)) (F32.div x y).
Proof.
  unfold F32.div. destruct x as [sx|sx| |sx mx ex], y as [sy|sy| |sy my ey]; simpl;
    try (left; reflexivity); try (right; split; reflexivity).
  destruct (SFdiv_core_binary _ _ _ _ _ _) as [[mz ez] lz].
  apply binary_round_aux_class.
Qed.

(** A product with an exact zero is a zero of the product sign, or a NaN
    (when the other factor is infinite or a NaN). *)
Lemma mul_zero_l (s : bool) (y : float) :
  F32.is_nan (F32.mul (S754_zero s) y) = true \/
  F32.is_zero (F32.mul (S754_zero s) y) = true.
Proof. destruct y; simpl; auto. Qed.

(** ** Alignment of mantissas *)

Lemma pos_iter_xO (d : positive) (m : positive) :
  Z.pos (Pos.iter xO m d) = Z.pos m * 2 ^ Z.pos d.
Proof.
  revert m. induction d as [|d IH] using Pos.peano_ind; intros m.
  - simpl. lia.
  - rewrite Pos.iter_succ, Pos2Z.inj_xO, IH, Pos2Z.inj_succ, Z.pow_succ_r by lia. lia.
Qed.

Lemma shl_align_value m e ez :
  ez <= e -> Z.pos (fst (shl_align m e ez)) = Z.pos m * 2 ^ (e - ez).
Proof.
  intros Hle. unfold shl_align.
  destruct (ez - e) as [|p|p] eqn:E; simpl.
  - replace (e - ez) with 0 by lia. lia.
  - lia.
  - rewrite pos_iter_xO. replace (e - ez) with (Z.pos p) by lia. reflexivity.
Qed.

Lemma digits2_pos_bound (p : positive) : Z.pos p < 2 ^ Z.pos (digits2_pos p).
Proof.
  induction p as [p IH|p IH|]; simpl digits2_pos.
  - rewrite Pos2Z.inj_succ, Z.pow_succ_r by lia. lia.
  - rewrite Pos2Z.inj_succ, Z.pow_succ_r by lia. lia.
  - simpl. lia.
Qed.

(** The mantissa of a well-formed binary32 number has at most 24 bits. *)
Lemma valid_mantissa_bound s m e :
  F32.valid (S754_finite s m e) = true -> Z.pos m < 2 ^ 24.
Proof.
  unfold F32.valid, valid_binary, bounded, canonical_mantissa, fexp, F32.prec, F32.emax.
  intros H. apply andb_true_iff in H as [H _]. apply Z.eqb_eq in H.
  pose proof (digits2_pos_bound m) as Hd.
  assert (Z.pos (digits2_pos m) <= 24) as Hle by lia.
  eapply Z.lt_le_trans; [exact Hd|]. apply Z.pow_le_mono_r; lia.
Qed.

(** ** The entry distance of a ray that starts inside the box *)

Lemma leb_true_not_nan a b : F32.leb a b = true -> F32.is_nan a = false /\ F32.is_nan b = false.
Proof. destruct a, b; simpl; try discriminate; auto. Qed.

Lemma ltb_true_not_nan a b : F32.ltb a b = true -> F32.is_nan a = false /\ F32.is_nan b = false.
Proof. destruct a, b; simpl; try discriminate; auto. Qed.

Lemma signed_true_key x : signed true x -> key_le (ord_key x) (0, 0, 0).
Proof.
  intros [Hn Hs]. destruct x as [s|s| |s m e]; simpl in *; try discriminate; subst;
    rewrite key_le_unfold; lia.
Qed.

Lemma signed_false_key x : signed false x -> key_le (0, 0, 0) (ord_key x).
Proof.
  intros [Hn Hs]. destruct x as [s|s| |s m e]; simpl in *; try discriminate; subst;
    rewrite key_le_unfold; lia.
Qed.

Lemma nan_key x : F32.is_nan x = true -> ord_key x = (0, 0, 0).
Proof. destruct x; simpl; try discriminate; reflexivity. Qed.

Lemma zero_key x : F32.is_zero x = true -> ord_key x = (0, 0, 0).
Proof. destruct x; simpl; try discriminate; reflexivity. Qed.

(** [0 - o] for a number [o >= 0] that is not infinite: a zero or a
    negative number. *)
Lemma sub_zero_class (o : float) :
  F32.leb Lit.f_0 o = true -> F32.is_finite o = true ->
  F32.sub Lit.f_0 o = S754_zero false \/
  exists m e, F32.sub Lit.f_0 o = S754_finite true m e.
Proof.
  destruct o as [s|s| |s m e]; try discriminate.
  - intros _ _. left. destruct s; reflexivity.
  - destruct s; [discriminate|]. intros _ _. right. exists m, e. reflexivity.
Qed.

(** [hi - o] for a well-formed [0 <= o <= hi], [hi] a positive normal
    number: the difference of the aligned mantissas is not negative, so
    the result carries a positive sign. *)
Lemma sub_upper_signed (o : float) (M : positive) (E : Z) :
  2 ^ 23 <= Z.pos M ->
  F32.valid o = true ->
  F32.leb Lit.f_0 o = true ->
  F32.leb o (S754_finite false M E) = true ->
  signed false (F32.sub (S754_finite false M E) o).
Proof.
  intros HM Hv H0 Hle.
  destruct o as [s|s| |s m e]; try discriminate.
  - split; reflexivity.
  - destruct s; discriminate.
  - destruct s; [discriminate|].
    apply leb_key in Hle; [|reflexivity|reflexivity]. simpl in Hle.
    rewrite key_le_unfold in Hle.
    pose proof (valid_mantissa_bound _ _ _ Hv) as Hm.
    unfold F32.sub, SFsub. cbn [cond_Zopp].
    set (ez := Z.min E e).
    rewrite (shl_align_value M E ez), (shl_align_value m e ez) by (subst ez; lia).
    assert (0 <= Z.pos M * 2 ^ (E - ez) - Z.pos m * 2 ^ (e - ez)) as Hd.
    { destruct Hle as [Hl|[_ [Hl|[He Hl]]]]; [lia| |].
      - replace ez with e by (subst ez; lia). rewrite Z.sub_diag, Z.pow_0_r.
        assert (2 ^ 1 <= 2 ^ (E - e)) by (apply Z.pow_le_mono_r; lia).
        change (2 ^ 1) with 2 in *. change (2 ^ 24) with 16777216 in *.
        change (2 ^ 23) with 8388608 in *. nia.
      - subst e. replace ez with E by (subst ez; lia).
        rewrite Z.sub_diag, Z.pow_0_r. lia. }
    unfold binary_normalize.
    destruct (Z.pos M * 2 ^ (E - ez) - Z.pos m * 2 ^ (e - ez)) as [|p|p];
      [split; reflexivity| |lia].
    unfold binary_round. destruct (shl_align p ez _) as [mz ez'].
    apply binary_round_aux_signed. lia.
Qed.

Lemma mul_nan_r x : F32.mul x S754_nan = S754_nan.
Proof. destruct x; reflexivity. Qed.

(** A product of two numbers is a NaN only for zero times infinity. *)
Lemma mul_nan_cases (x y : float) :
  F32.is_nan x = false -> F32.is_nan y = false -> F32.is_nan (F32.mul x y) = true ->
  (F32.is_zero x = true /\ F32.is_finite y = false) \/
  (F32.is_finite x = false /\ F32.is_zero y = true).
Proof.
  destruct x as [sx|sx| |sx mx ex], y as [sy|sy| |sy my ey]; simpl;
    try discriminate; auto.
  intros _ _ H. unfold F32.mul, SFmul in H.
  destruct (binary_round_aux_signed (xorb sx sy) (Z.pos (mx * my)) (ex + ey) loc_Exact)
    as [Hn _]; [lia|]. congruence.
Qed.

Lemma key_le_refl k : key_le k k.
Proof. right. reflexivity. Qed.

Lemma entry_ok_of_key x : key_le (ord_key x) (0, 0, 0) -> entry_ok x.
Proof. intros H. left. exact H. Qed.

(** Multiplying a negative finite number by an infinity gives the
    infinity of the opposite sign. *)
Lemma mul_neg_inf m e y :
  F32.is_nan y = false -> F32.is_finite y = false ->
  F32.mul (S754_finite true m e) y = S754_infinity (negb (F32.signbit y)).
Proof. destruct y as [s|s| |s my ey]; simpl; try discriminate. reflexivity. Qed.

Lemma mul_finite_zero s m e y :
  F32.is_zero y = true -> F32.is_zero (F32.mul (S754_finite s m e) y) = true.
Proof. destruct y; simpl; try discriminate. reflexivity. Qed.

(** The entry candidate of a slab [0, hi] for an origin coordinate inside
    it: whatever the direction component is, the smaller of the two
    crossing distances is a NaN, a number not above zero, or +infinity. *)
Lemma slab_lo_entry_ok (o d : float) (M : positive) (E : Z) :
  2 ^ 23 <= Z.pos M ->
  F32.valid o = true ->
  F32.leb Lit.f_0 o = true ->
  F32.leb o (S754_finite false M E) = true ->
  entry_ok (fst (slab_interval o d Lit.f_0 (S754_finite false M E))).
Proof.
  intros HM Hv H0 Hle.
  assert (F32.is_finite o = true) as Hfin.
  { destruct o as [s|s| |s m e]; try discriminate; try reflexivity.
    destruct s; discriminate. }
  pose proof (sub_zero_class o H0 Hfin) as HA.
  pose proof (sub_upper_signed o M E HM Hv H0 Hle) as HB.
  unfold slab_interval. cbv zeta.
  set (inv := F32.div Lit.f_1 d).
  set (A := F32.sub Lit.f_0 o) in *.
  set (B := F32.sub (S754_finite false M E) o) in *.
  assert (F32.is_nan inv = true \/ F32.is_nan inv = false) as [Ninv|Ninv]
    by (destruct (F32.is_nan inv); auto).
  { (* the reciprocal is a NaN: so are both products *)
    destruct inv; try discriminate. rewrite !mul_nan_r.
    change (F32.ltb S754_nan S754_nan) with false. cbn [fst].
    apply entry_ok_of_key. apply key_le_refl. }
  set (ta := F32.mul A inv). set (tb := F32.mul B inv).
  destruct (F32.ltb tb ta) eqn:Hlt; cbn [fst].
  - (* swapped: tb < ta, both numbers *)
    destruct (ltb_true_not_nan _ _ Hlt) as [Ntb Nta].
    pose proof Hlt as Hk. apply ltb_key in Hk; [|assumption|assumption].
    destruct HA as [HA|(m & e & HA)].
    + (* A = +0: ta is a zero *)
      destruct (mul_zero_l false inv) as [Hz|Hz]; fold A in Hz; rewrite <- HA in Hz;
        fold ta in Hz; [congruence|].
      apply entry_ok_of_key. left. rewrite (zero_key _ Hz) in Hk. exact Hk.
    + destruct (mul_class B inv) as [Hc|Hc]; fold tb in Hc; [congruence|].
      destruct HB as [_ HsB]. rewrite HsB in Hc. simpl xorb in Hc.
      destruct (F32.signbit inv) eqn:Hs.
      * apply entry_ok_of_key. apply signed_true_key. exact Hc.
      * destruct (mul_class A inv) as [Hc'|Hc']; fold ta in Hc'; [congruence|].
        rewrite HA, Hs in Hc'. simpl in Hc'.
        apply entry_ok_of_key. left.
        pose proof (signed_true_key _ Hc') as Hta.
        destruct Hta as [Hta|Hta]; [eapply key_lt_trans; eassumption|].
        rewrite <- Hta. exact Hk.
  - (* not swapped: the candidate is ta *)
    destruct (F32.is_nan ta) eqn:Nta.
    { apply entry_ok_of_key. rewrite (nan_key _ Nta). apply key_le_refl. }
    destruct HA as [HA|(m & e & HA)].
    + destruct (mul_zero_l false inv) as [Hz|Hz]; fold A in Hz; rewrite <- HA in Hz;
        fold ta in Hz; [congruence|].
      apply entry_ok_of_key. rewrite (zero_key _ Hz). apply key_le_refl.
    + destruct (mul_class A inv) as [Hc'|Hc']; fold ta in Hc'; [congruence|].
      rewrite HA in Hc'. simpl in Hc'.
      destruct (F32.signbit inv) eqn:Hs; simpl in Hc'.
      2:{ apply entry_ok_of_key. apply signed_true_key. exact Hc'. }
      destruct (F32.is_nan tb) eqn:Ntb.
      * (* tb is a NaN: zero times infinity, one way or the other *)
        destruct HB as [NB HsB].
        destruct (mul_nan_cases B inv NB Ninv Ntb) as [[_ Hi]|[_ Hz]].
        -- right. unfold ta. rewrite HA. rewrite mul_neg_inf by assumption.
           rewrite Hs. reflexivity.
        -- apply entry_ok_of_key. unfold ta. rewrite HA.
           rewrite (zero_key _ (mul_finite_zero true m e inv Hz)). apply key_le_refl.
      * (* both numbers and ta <= tb, tb carrying a negative sign *)
        destruct (mul_class B inv) as [Hc|Hc]; fold tb in Hc; [congruence|].
        destruct HB as [_ HsB]. rewrite HsB, Hs in Hc. simpl in Hc.
        apply ltb_false_leb in Hlt; [|assumption|assumption].
        apply leb_key in Hlt; [|assumption|assumption].
        apply entry_ok_of_key. eapply key_le_trans; [exact Hlt|].
        apply signed_true_key. exact Hc.
Qed.

Lemma axis_slab_result orig dir mn mx tmin tmax :
  result (axis_slab orig dir mn mx tmin tmax) =
    (negb (F32.ltb orig mn || F32.ltb mx orig), (tmin, tmax)) \/
  result (axis_slab orig dir mn mx tmin tmax) =
    (true, (F32.fmaxf tmin (fst (slab_interval orig dir mn mx)),
            F32.fminf tmax (snd (slab_interval orig dir mn mx)))).
Proof.
  destruct (F32.ltb (F32.fabsf dir) Lit.f_1em6) eqn:E.
  - left. rewrite axis_slab_parallel by assumption. reflexivity.
  - right. rewrite axis_slab_crossing by assumption. reflexivity.
Qed.

(** A property of the running interval that holds initially and is kept
    by the slab test of each axis holds of the interval [ray_aabb]
    returns. *)
Lemma ray_aabb_interval_inv (P : float -> float -> Prop) (ro rd : Vector3 float) :
  P Lit.f_m1e30 Lit.f_1e30 ->
  (forall tmin tmax ok tmin' tmax',
     P tmin tmax ->
     result (axis_slab (vx ro) (vx rd) Lit.f_0 (F32.of_int GRID_X) tmin tmax)
       = (ok, (tmin', tmax')) -> P tmin' tmax') ->
  (forall tmin tmax ok tmin' tmax',
     P tmin tmax ->
     result (axis_slab (vy ro) (vy rd) Lit.f_0 (F32.of_int GRID_Y) tmin tmax)
       = (ok, (tmin', tmax')) -> P tmin' tmax') ->
  (forall tmin tmax ok tmin' tmax',
     P tmin tmax ->
     result (axis_slab (vz ro) (vz rd) Lit.f_0 (F32.of_int GRID_Z) tmin tmax)
       = (ok, (tmin', tmax')) -> P tmin' tmax') ->
  forall t0 t1, result (ray_aabb ro rd) = Some (t0, t1) -> P t0 t1.
Proof.
  intros H0 Hx Hy Hz t0 t1. unfold ray_aabb. cbv zeta. rewrite !result_bind.
  destruct (result (axis_slab (vx ro) _ _ _ _ _)) as [ok1 [a1 b1]] eqn:E1.
  pose proof (Hx _ _ _ _ _ H0 E1) as P1.
  destruct ok1; [|discriminate]. simpl negb. cbv iota. rewrite !result_bind.
  destruct (result (axis_slab (vy ro) _ _ _ _ _)) as [ok2 [a2 b2]] eqn:E2.
  pose proof (Hy _ _ _ _ _ P1 E2) as P2.
  destruct ok2; [|discriminate]. simpl negb. cbv iota. rewrite !result_bind.
  destruct (result (axis_slab (vz ro) _ _ _ _ _)) as [ok3 [a3 b3]] eqn:E3.
  pose proof (Hz _ _ _ _ _ P2 E3) as P3.
  destruct ok3; [|discriminate]. simpl negb. cbv iota.
  destruct (F32.ltb b3 (F32.fmaxf a3 Lit.f_0)); [discriminate|].
  intros H. inversion H; subst. exact P3.
Qed.

Lemma axis_slab_interval_ok orig dir mn mx tmin tmax ok tmin' tmax' :
  interval_ok tmin tmax ->
  result (axis_slab orig dir mn mx tmin tmax) = (ok, (tmin', tmax')) ->
  interval_ok tmin' tmax'.
Proof.
  intros (Nmin & Nmax & Hmax) Hres.
  destruct (axis_slab_result orig dir mn mx tmin tmax) as [E|E];
    rewrite E in Hres; inversion Hres; subst.
  - repeat split; assumption.
  - repeat split.
    + apply fmaxf_not_nan; assumption.
    + apply fminf_not_nan; assumption.
    + eapply key_le_trans; [|exact Hmax].
      apply (fminf_key tmax (snd (slab_interval orig dir mn mx)) Nmax).
Qed.

Lemma ray_aabb_interval_ok ro rd t0 t1 :
  result (ray_aabb ro rd) = Some (t0, t1) -> interval_ok t0 t1.
Proof.
  apply (ray_aabb_interval_inv interval_ok).
  - repeat split. apply key_le_refl.
  - intros. eapply axis_slab_interval_ok; eassumption.
  - intros. eapply axis_slab_interval_ok; eassumption.
  - intros. eapply axis_slab_interval_ok; eassumption.
Qed.

Lemma axis_slab_entry_ok o d (M : positive) (E : Z) tmin tmax ok tmin' tmax' :
  2 ^ 23 <= Z.pos M ->
  F32.valid o = true -> F32.leb Lit.f_0 o = true ->
  F32.leb o (S754_finite false M E) = true ->
  F32.is_nan tmin = false /\ entry_ok tmin ->
  result (axis_slab o d Lit.f_0 (S754_finite false M E) tmin tmax) = (ok, (tmin', tmax')) ->
  F32.is_nan tmin' = false /\ entry_ok tmin'.
Proof.
  intros HM Hv H0 Hle [Nmin Hmin] Hres.
  destruct (axis_slab_result o d Lit.f_0 (S754_finite false M E) tmin tmax) as [Er|Er];
    rewrite Er in Hres; inversion Hres; subst.
  - split; assumption.
  - split; [apply fmaxf_not_nan; assumption|].
    pose proof (slab_lo_entry_ok o d M E HM Hv H0 Hle) as Hlo.
    destruct (fmaxf_key tmin (fst (slab_interval o d Lit.f_0 (S754_finite false M E))) Nmin)
      as (_ & _ & [-> | [_ ->]]); assumption.
Qed.

Lemma grid_bounds_as_floats :
  F32.of_int GRID_X = S754_finite false 12582912 (-19) /\
  F32.of_int GRID_Y = S754_finite false 8388608 (-19) /\
  F32.of_int GRID_Z = S754_finite false 12582912 (-19).
Proof. repeat split; reflexivity. Qed.

Lemma ray_aabb_entry_inside ro rd t0 t1 :
  origin_in_box ro ->
  result (ray_aabb ro rd) = Some (t0, t1) ->
  F32.is_nan t0 = false /\ entry_ok t0.
Proof.
  intros ((Vx & Lx & Ux) & (Vy & Ly & Uy) & (Vz & Lz & Uz)).
  destruct grid_bounds_as_floats as (Gx & Gy & Gz). rewrite Gx in Ux. rewrite Gy in Uy.
  rewrite Gz in Uz.
  apply (ray_aabb_interval_inv (fun tmin _ => F32.is_nan tmin = false /\ entry_ok tmin)).
  - split; [reflexivity|]. left. left. vm_compute. left. reflexivity.
  - intros tmin tmax ok tmin' tmax' HP Hres. rewrite Gx in Hres.
    eapply (axis_slab_entry_ok (vx ro)); try eassumption. simpl; lia.
  - intros tmin tmax ok tmin' tmax' HP Hres. rewrite Gy in Hres.
    eapply (axis_slab_entry_ok (vy ro)); try eassumption. simpl; lia.
  - intros tmin tmax ok tmin' tmax' HP Hres. rewrite Gz in Hres.
    eapply (axis_slab_entry_ok (vz ro)); try eassumption. simpl; lia.
Qed.

(** C2, as stated, fails: for the ray that starts at (12, 8, 12), inside
    the box, and runs along +x, [ray_aabb] reports the entry distance
    -12 (and the exit distance 12), not 0. *)
Lemma ray_aabb_reports_negative_entry :
  origin_in_box Demo.inner_origin /\
  result (ray_aabb Demo.inner_origin Demo.inner_dir) = Some (F32.of_int (-12), F32.of_int 12) /\
  F32.eqb (F32.of_int (-12)) Lit.f_0 = false /\
  F32.ltb (F32.of_int (-12)) Lit.f_0 = true.
Proof. vm_compute. repeat split; reflexivity. Qed.

(** C2, amended: whenever [ray_aabb] reports an intersection, the
    returned entry distance is not above the returned exit distance, and
    the distance the traversal starts at, [fmaxf(t_enter, 0)], lies
    between 0 and the exit distance.  If the origin lies inside the grid
    box (with well-formed coordinates), the returned entry distance is
    not above 0 (it may be negative) and the start distance equals 0. *)
Theorem ray_aabb_entry_before_exit (ro rd : Vector3 float) (t0 t1 : float) :
  result (ray_aabb ro rd) = Some (t0, t1) ->
  F32.leb t0 t1 = true /\
  F32.leb Lit.f_0 (F32.fmaxf t0 Lit.f_0) = true /\
  F32.leb (F32.fmaxf t0 Lit.f_0) t1 = true /\
  (forall pf, t_cur (snd (result (dda_init pf ro rd t0 t1))) = F32.fmaxf t0 Lit.f_0) /\
  (origin_in_box ro ->
     F32.leb t0 Lit.f_0 = true /\ F32.eqb (F32.fmaxf t0 Lit.f_0) Lit.f_0 = true).
Proof.
  intros Hres.
  destruct (ray_aabb_interval_ok ro rd t0 t1 Hres) as (N0 & N1 & Hmax).
  pose proof (ray_aabb_success ro rd t0 t1 Hres) as Hchk.
  pose proof (fmaxf_not_nan t0 Lit.f_0 N0) as Nm.
  assert (F32.is_nan Lit.f_0 = false) as Nz by reflexivity.
  destruct (fmaxf_key t0 Lit.f_0 N0) as (Hlo & Hzero & Hcase).
  specialize (Hzero Nz).
  apply ltb_false_leb in Hchk; [|assumption|assumption].
  pose proof Hchk as Hk. apply leb_key in Hk; [|assumption|assumption].
  split. { apply leb_key; [assumption|assumption|]. exact (key_le_trans _ _ _ Hlo Hk). }
  split. { apply leb_key; assumption. }
  split. { exact Hchk. }
  split. { intros pf. apply (dda_init_state pf ro rd t0 t1). }
  intros Hin.
  destruct (ray_aabb_entry_inside ro rd t0 t1 Hin Hres) as [_ [Hle|Hinf]].
  - split. { apply leb_key; assumption. }
    apply eqb_key; [assumption|assumption|].
    destruct Hcase as [Hc|[_ Hc]]; rewrite Hc in *; [|reflexivity].
    change (ord_key Lit.f_0) with (0, 0, 0) in *.
    destruct (ord_key t0) as [[k1 k2] k3]. rewrite key_le_unfold in Hle, Hzero.
    f_equal; [f_equal|]; lia.
  - (* an infinite entry distance cannot pass the final test *)
    exfalso. subst t0.
    assert (key_le (ord_key (F32.fmaxf (S754_infinity false) Lit.f_0)) (ord_key Lit.f_1e30)) as Hbad
      by (exact (key_le_trans _ _ _ Hk Hmax)).
    change (ord_key (F32.fmaxf (S754_infinity false) Lit.f_0)) with (2, 0, 0) in Hbad.
    change (ord_key Lit.f_1e30) with (1, 76, 13234890) in Hbad.
    rewrite key_le_unfold in Hbad. lia.
Qed.

Lemma ray_aabb_entry_before_exit_witness :
  result (ray_aabb Demo.inner_origin Demo.inner_dir) = Some (F32.of_int (-12), F32.of_int 12) /\
  origin_in_box Demo.inner_origin /\
  F32.leb (F32.of_int (-12)) (F32.of_int 12) = true /\
  F32.eqb (F32.fmaxf (F32.of_int (-12)) Lit.f_0) Lit.f_0 = true.
Proof.
  assert (result (ray_aabb Demo.inner_origin Demo.inner_dir)
          = Some (F32.of_int (-12), F32.of_int 12)) as Hres by (vm_compute; reflexivity).
  assert (origin_in_box Demo.inner_origin) as Hin by (vm_compute; repeat split; reflexivity).
  pose proof (ray_aabb_entry_before_exit Demo.inner_origin Demo.inner_dir _ _ Hres)
    as (Hle & _ & _ & _ & Hzero).
  split; [exact Hres|]. split; [exact Hin|]. split; [exact Hle|].
  apply Hzero. exact Hin.
Defined.

(** ** Rounding error of binary32 operations *)









































(** * Further properties of the code *)

(** ** Grid indexing *)

Lemma cell_of_voxel_index x y z :
  inside_grid x y z = true -> cell_of_index (voxel_index x y z) = (x, y, z).
Proof.
  intros Hin.
  apply inside_grid_spec in Hin. unfold cell_of_index, voxel_index, GRID_X, GRID_Y, GRID_Z in *.
  assert ((x + y * 24 + z * 24 * 16) mod 24 = x) as Ex.
  { replace (x + y * 24 + z * 24 * 16) with (x + (y + z * 16) * 24) by lia.
    rewrite Z.mod_add by lia. apply Z.mod_small. lia. }
  assert ((x + y * 24 + z * 24 * 16) / 24 = y + z * 16) as Ed.
  { replace (x + y * 24 + z * 24 * 16) with (x + (y + z * 16) * 24) by lia.
    rewrite Z.div_add by lia. rewrite Z.div_small by lia. lia. }
  assert ((x + y * 24 + z * 24 * 16) / (24 * 16) = z) as Ez.
  { replace (x + y * 24 + z * 24 * 16) with ((x + y * 24) + z * (24 * 16)) by lia.
    rewrite Z.div_add by lia. rewrite Z.div_small by lia. lia. }
  rewrite Ex, Ed, Ez. rewrite Z.mod_add by lia. rewrite Z.mod_small by lia. reflexivity.
Qed.

(** [voxel_index] (lines 97-99) and [inside_grid] (lines 101-103): the
    linear index is a bijection between the cells of the grid and the
    positions [0, GRID_SIZE) of the array, with inverse [cell_of_index]. *)
Theorem voxel_index_bijection :
  (forall x y z, inside_grid x y z = true ->
     0 <= voxel_index x y z < GRID_SIZE /\
     cell_of_index (voxel_index x y z) = (x, y, z)) /\
  (forall i, 0 <= i < GRID_SIZE ->
     exists x y z, cell_of_index i = (x, y, z) /\
                   inside_grid x y z = true /\ voxel_index x y z = i).
Proof.
  split.
  - intros x y z Hin. split; [apply voxel_index_bounds|apply cell_of_voxel_index]; assumption.
  - intros i Hi. unfold GRID_SIZE, GRID_X, GRID_Y, GRID_Z in Hi.
    exists (i mod GRID_X), ((i / GRID_X) mod GRID_Y), (i / (GRID_X * GRID_Y)).
    split; [reflexivity|]. unfold GRID_X, GRID_Y, GRID_Z.
    pose proof (Z.mod_pos_bound i 24 ltac:(lia)).
    pose proof (Z.mod_pos_bound (i / 24) 16 ltac:(lia)).
    pose proof (Z.div_mod i 24 ltac:(lia)).
    pose proof (Z.div_mod (i / 24) 16 ltac:(lia)).
    assert (i / (24 * 16) = i / 24 / 16) as Ez by (rewrite Z.div_div; lia).
    split.
    + apply inside_grid_spec. unfold GRID_X, GRID_Y, GRID_Z. rewrite Ez.
      assert (0 <= i / 24 / 16 < 24).
      { split; [apply Z.div_pos; [apply Z.div_pos|]; lia|].
        apply Z.div_lt_upper_bound; [lia|]. apply Z.div_lt_upper_bound; lia. }
      lia.
    + unfold voxel_index, GRID_X, GRID_Y. rewrite Ez. lia.
Qed.

(** ** Writing voxels *)

(** [set_voxel] (lines 106-110): a later write to the same cell replaces
    an earlier one, writes to different cells commute, and rewriting the
    value a cell already holds changes nothing. *)
Theorem set_voxel_compose (g : AppState) (x y z x' y' z' v v' : Z) :
  length (voxels g) = Z.to_nat GRID_SIZE ->
  set_voxel (set_voxel g x y z v) x y z v' = set_voxel g x y z v' /\
  ((x, y, z) <> (x', y', z') ->
     set_voxel (set_voxel g x y z v) x' y' z' v' =
     set_voxel (set_voxel g x' y' z' v') x y z v) /\
  (get_voxel (voxels g) x y z = Some v -> set_voxel g x y z v = g).
Proof.
  intros Hlen. unfold set_voxel, get_voxel, with_voxels, store_voxel.
  split; [|split].
  - destruct (inside_grid x y z); [|reflexivity]. cbn. rewrite list_insert_insert_eq. reflexivity.
  - intros Hne.
    destruct (inside_grid x y z) eqn:H1; destruct (inside_grid x' y' z') eqn:H2;
      cbn; rewrite ?H1, ?H2; try reflexivity.
    f_equal. apply list_insert_insert_ne.
    pose proof (voxel_index_bounds _ _ _ H1). pose proof (voxel_index_bounds _ _ _ H2).
    intros E. apply Hne.
    assert (voxel_index x y z = voxel_index x' y' z') as E' by lia.
    destruct (voxel_index_inj _ _ _ _ _ _ H1 H2 E') as (-> & -> & ->). reflexivity.
  - intros Hget. destruct (inside_grid x y z); [|reflexivity].
    rewrite list_insert_id by assumption. destruct g; reflexivity.
Qed.

Lemma set_voxel_compose_witness :
  length (voxels Demo.blank) = Z.to_nat GRID_SIZE /\
  set_voxel (set_voxel Demo.blank 8 1 8 2) 8 1 8 3 = set_voxel Demo.blank 8 1 8 3.
Proof.
  split; [apply length_replicate|].
  exact (proj1 (set_voxel_compose Demo.blank 8 1 8 9 1 8 2 3
                  (length_replicate (Z.to_nat GRID_SIZE) 0))).
Defined.

(** ** The tutorial scene *)

Lemma build_scene_voxels_fixed (g : AppState) :
  voxels (build_scene g) = voxels Demo.scene.
Proof. vm_compute. reflexivity. Qed.

Lemma demo_scene_cells_ok :
  forallb (scene_cell_ok (voxels Demo.scene)) (seq 0 (Z.to_nat GRID_SIZE)) = true.
Proof. vm_compute. reflexivity. Qed.

Lemma rest_trans (g1 g2 g3 : AppState) :
  with_voxels g2 (voxels g1) = g1 -> with_voxels g3 (voxels g2) = g2 ->
  with_voxels g3 (voxels g1) = g1.
Proof.
  intros H1 H2. destruct g1, g2, g3. unfold with_voxels in *. cbn in *. congruence.
Qed.

Lemma for_range_rest (body : Z -> AppState -> AppState) :
  (forall i g, with_voxels (body i g) (voxels g) = g) ->
  forall n lo g, with_voxels (for_range lo n body g) (voxels g) = g.
Proof.
  intros Hb n. induction n as [|n IH]; intros lo g; simpl.
  - destruct g; reflexivity.
  - exact (rest_trans g (body lo g) _ (Hb lo g) (IH (lo + 1) (body lo g))).
Qed.

Lemma set_voxel_rest g x y z v : with_voxels (set_voxel g x y z v) (voxels g) = g.
Proof. unfold set_voxel. destruct (inside_grid x y z); destruct g; reflexivity. Qed.

(** [build_scene] (lines 117-142): whatever the state held before, the
    voxel array afterwards has [GRID_SIZE] elements and every cell of the
    grid holds the material of the tutorial scene (ground plane 1, red
    column 2, green wall 3, blue column 4, empty 0 elsewhere); no other
    field of the state is changed. *)
Theorem build_scene_contents (g : AppState) :
  length (voxels (build_scene g)) = Z.to_nat GRID_SIZE /\
  (forall x y z, inside_grid x y z = true ->
     get_voxel (voxels (build_scene g)) x y z = Some (scene_material x y z)) /\
  with_voxels (build_scene g) (voxels g) = g.
Proof.
  rewrite build_scene_voxels_fixed. split; [|split].
  - vm_compute. reflexivity.
  - intros x y z Hin.
    pose proof (voxel_index_bounds x y z Hin) as Hb.
    pose proof (cell_of_voxel_index x y z Hin) as Hcell.
    pose proof demo_scene_cells_ok as Hall. rewrite forallb_forall in Hall.
    specialize (Hall (Z.to_nat (voxel_index x y z))).
    unfold scene_cell_ok in Hall. rewrite Z2Nat.id in Hall by lia. rewrite Hcell in Hall.
    unfold get_voxel.
    destruct (voxels Demo.scene !! Z.to_nat (voxel_index x y z)) as [v|].
    + f_equal. apply Z.eqb_eq. apply Hall. apply in_seq. lia.
    + assert (false = true) by (apply Hall; apply in_seq; lia). discriminate.
  - unfold build_scene. cbv zeta.
    assert (forall a b q, with_voxels b (voxels a) = a -> with_voxels q (voxels b) = b ->
                          with_voxels q (voxels a) = a) as T by (intros; eapply rest_trans; eauto).
    eapply T; [eapply T; [eapply T; [eapply T|]|]|].
    + instantiate (1 := with_voxels g (replicate (Z.to_nat GRID_SIZE) 0)).
      destruct g; reflexivity.
    + apply for_range_rest. intros z0 g0. apply for_range_rest. intros. apply set_voxel_rest.
    + apply for_range_rest. intros y0 g0.
      eapply T; [eapply T; [eapply T|]|]; apply set_voxel_rest.
    + apply for_range_rest. intros y0 g0. apply for_range_rest. intros. apply set_voxel_rest.
    + apply for_range_rest. intros. apply set_voxel_rest.
Qed.

(** ** Clamping *)

(** [clamp_i32] (lines 87-89): for bounds in order the result lies
    between them, values already between them are returned unchanged,
    and clamping twice is clamping once. *)
Theorem clamp_i32_spec (v lo hi : Z) :
  lo <= hi ->
  lo <= clamp_i32 v lo hi <= hi /\
  (lo <= v <= hi -> clamp_i32 v lo hi = v) /\
  (v < lo -> clamp_i32 v lo hi = lo) /\
  (hi < v -> clamp_i32 v lo hi = hi) /\
  clamp_i32 (clamp_i32 v lo hi) lo hi = clamp_i32 v lo hi.
Proof.
  intros Hb. unfold clamp_i32.
  destruct (Z.ltb_spec v lo) as [H1|H1].
  - repeat split; try lia.
    destruct (Z.ltb_spec lo lo); [lia|]. destruct (Z.gtb_spec lo hi); [lia|reflexivity].
  - destruct (Z.gtb_spec v hi) as [H2|H2].
    + repeat split; try lia.
      destruct (Z.ltb_spec hi lo); [lia|]. destruct (Z.gtb_spec hi hi); [lia|reflexivity].
    + repeat split; try lia.
      destruct (Z.ltb_spec v lo); [lia|]. destruct (Z.gtb_spec v hi); [lia|reflexivity].
Qed.

Lemma clamp_i32_spec_witness :
  0 <= 255 /\ clamp_i32 300 0 255 = 255 /\ clamp_i32 (-7) 0 255 = 0 /\ clamp_i32 17 0 255 = 17.
Proof.
  pose proof (clamp_i32_spec 300 0 255 ltac:(lia)) as (_ & _ & _ & Hhi & _).
  pose proof (clamp_i32_spec (-7) 0 255 ltac:(lia)) as (_ & _ & Hlo & _).
  pose proof (clamp_i32_spec 17 0 255 ltac:(lia)) as (_ & Hid & _).
  split; [lia|]. split; [apply Hhi; lia|]. split; [apply Hlo; lia|apply Hid; lia].
Defined.

(** [clamp_f32] (lines 91-93): for numbers with [lo <= hi] the result
    lies between the bounds and is the argument itself when that lies
    between them; a NaN argument is returned as it is, because both
    comparisons fail. *)
Theorem clamp_f32_spec (v lo hi : float) :
  F32.is_nan lo = false -> F32.is_nan hi = false -> F32.leb lo hi = true ->
  (F32.is_nan v = true -> clamp_f32 v lo hi = v) /\
  (F32.is_nan v = false ->
     F32.leb lo (clamp_f32 v lo hi) = true /\
     F32.leb (clamp_f32 v lo hi) hi = true /\
     (F32.leb lo v = true -> F32.leb v hi = true -> clamp_f32 v lo hi = v)).
Proof.
  intros Nlo Nhi Hb. unfold clamp_f32. split.
  - intros Nv. destruct v; try discriminate. destruct lo, hi; reflexivity.
  - intros Nv.
    destruct (F32.ltb v lo) eqn:E1.
    + repeat split.
      * apply leb_key; try assumption. apply key_le_refl.
      * assumption.
      * intros H. apply ltb_false_leb in H; congruence.
    + destruct (F32.ltb hi v) eqn:E2.
      * repeat split.
        -- assumption.
        -- apply leb_key; try assumption. apply key_le_refl.
        -- intros _ H. apply ltb_false_leb in H; congruence.
      * repeat split.
        -- apply ltb_false_leb; assumption.
        -- apply ltb_false_leb; assumption.
Qed.

Lemma clamp_f32_spec_witness :
  F32.leb Lit.f_0 Lit.f_1 = true /\
  clamp_f32 Lit.f_3 Lit.f_0 Lit.f_1 = Lit.f_1 /\
  clamp_f32 S754_nan Lit.f_0 Lit.f_1 = S754_nan.
Proof.
  pose proof (clamp_f32_spec S754_nan Lit.f_0 Lit.f_1 eq_refl eq_refl eq_refl) as [Hnan _].
  split; [reflexivity|]. split; [reflexivity|]. apply Hnan. reflexivity.
Defined.

(** ** What a traversal reports *)

Lemma loads_app l1 l2 : loads (l1 ++ l2) = loads l1 ++ loads l2.
Proof.
  induction l1 as [|[num den|i] l1 IH]; simpl; [reflexivity|assumption|].
  rewrite IH. reflexivity.
Qed.

Lemma axis_slab_loads orig dir mn mx tmin tmax :
  loads (events (axis_slab orig dir mn mx tmin tmax)) = [].
Proof.
  destruct (F32.ltb (F32.fabsf dir) Lit.f_1em6) eqn:E.
  - rewrite axis_slab_parallel by assumption. reflexivity.
  - rewrite axis_slab_crossing by assumption. reflexivity.
Qed.

Lemma ray_aabb_loads ro rd : loads (events (ray_aabb ro rd)) = [].
Proof.
  unfold ray_aabb. cbv zeta.
  rewrite events_bind, loads_app, axis_slab_loads.
  destruct (result (axis_slab (vx ro) _ _ _ _ _)) as [[] [a1 b1]]; simpl negb; cbv iota;
    [|reflexivity].
  rewrite events_bind, loads_app, axis_slab_loads.
  destruct (result (axis_slab (vy ro) _ _ _ _ _)) as [[] [a2 b2]]; simpl negb; cbv iota;
    [|reflexivity].
  rewrite events_bind, loads_app, axis_slab_loads.
  destruct (result (axis_slab (vz ro) _ _ _ _ _)) as [[] [a3 b3]]; simpl negb; cbv iota;
    [|reflexivity].
  destruct (F32.ltb _ _); reflexivity.
Qed.

Lemma axis_crossing_loads t nb p d : loads (events (axis_crossing t nb p d)) = [].
Proof. unfold axis_crossing. destruct (F32.ltb _ _); reflexivity. Qed.

Lemma dda_init_loads pf ro rd t0 t1 : loads (events (dda_init pf ro rd t0 t1)) = [].
Proof.
  unfold dda_init. cbv zeta.
  rewrite events_bind, loads_app, axis_crossing_loads.
  destruct (result (axis_crossing _ _ _ (vx rd))) as [mx dx].
  rewrite events_bind, loads_app, axis_crossing_loads.
  destruct (result (axis_crossing _ _ _ (vy rd))) as [my dy].
  rewrite events_bind, loads_app, axis_crossing_loads.
  destruct (result (axis_crossing _ _ _ (vz rd))) as [mz dz].
  reflexivity.
Qed.

(** The loop counts one step per voxel it reads, stops at the first
    occupied voxel and shades that one. *)
Lemma dda_loop_reads vox r n :
  forall s,
    let out := dda_loop vox r n s in
    entered_grid (result out) = true /\
    steps (result out) = nsteps s + Z.of_nat (length (loads (events out))) /\
    (hit (result out) = false ->
       Forall (fun i => read_voxel vox i = 0) (loads (events out))) /\
    (hit (result out) = true ->
       exists before i,
         loads (events out) = before ++ [i] /\
         Forall (fun j => read_voxel vox j = 0) before /\
         read_voxel vox i <> 0).
Proof.
  induction n as [|n IH]; intros s; cbv zeta.
  - simpl. split; [reflexivity|]. split; [lia|]. split; [constructor|discriminate].
  - destruct (dda_loop_cases vox r n s) as [[_ E]|[(_ & Hnz & E)|(_ & Hz & E)]]; rewrite E.
    + unfold result, events; simpl.
      split; [reflexivity|]. split; [lia|]. split; [constructor|discriminate].
    + unfold result, events; simpl.
      split; [reflexivity|]. split; [lia|]. split; [discriminate|].
      intros _. exists [], (cell_index s).
      split; [reflexivity|]. split; [constructor|exact Hnz].
    + specialize (IH (dda_advance r (count_step s))). cbv zeta in IH.
      destruct IH as (He & Hs & Hmiss & Hhit).
      rewrite dda_advance_nsteps in Hs. simpl nsteps in Hs.
      revert He Hs Hmiss Hhit.
      generalize (result (dda_loop vox r n (dda_advance r (count_step s)))).
      generalize (events (dda_loop vox r n (dda_advance r (count_step s)))).
      intros ev' res' He Hs Hmiss Hhit.
      unfold result, events. cbn [fst snd loads length].
      split; [exact He|]. split; [rewrite Hs; lia|]. split.
      * intros Hh. constructor; [exact Hz|]. apply Hmiss. exact Hh.
      * intros Hh. destruct (Hhit Hh) as (before & i & Hl & Hb & Hi).
        exists (cell_index s :: before), i. rewrite Hl.
        split; [reflexivity|]. split; [|assumption].
        constructor; [exact Hz|assumption].
Qed.

(** [trace_ray_amanatides_woo] (lines 192-307), first hit: the step
    count is the number of voxels read; on a miss every voxel read was
    empty; on a hit every voxel read before the last was empty and the
    last one is occupied. *)
Theorem trace_stops_at_first_occupied (pf : Platform) (vox : list Z) (ro rd : Vector3 float) :
  let out := trace_ray_amanatides_woo pf vox ro rd in
  steps (result out) = Z.of_nat (length (loads (events out))) /\
  (hit (result out) = false ->
     Forall (fun i => read_voxel vox i = 0) (loads (events out))) /\
  (hit (result out) = true ->
     exists before i,
       loads (events out) = before ++ [i] /\
       Forall (fun j => read_voxel vox j = 0) before /\
       read_voxel vox i <> 0).
Proof.
  cbv zeta. unfold trace_ray_amanatides_woo.
  rewrite result_bind, events_bind, loads_app, ray_aabb_loads. cbn [app].
  destruct (result (ray_aabb ro rd)) as [[t0 t1]|].
  - rewrite result_bind, events_bind, loads_app, dda_init_loads. cbn [app].
    pose proof (dda_init_state pf ro rd t0 t1) as (_ & _ & _ & _ & Hn & _).
    destruct (result (dda_init pf ro rd t0 t1)) as [r s]. cbn [snd] in Hn.
    destruct (dda_loop_reads vox r 256 s) as (_ & Hs & Hm & Hh).
    rewrite Hn, Z.add_0_l in Hs. split; [exact Hs|]. split; assumption.
  - unfold result, events; simpl. split; [reflexivity|]. split; [constructor|discriminate].
Qed.

(** [trace_ray_amanatides_woo], coherence of the result: a ray is
    reported as having entered the grid exactly when the box test
    succeeds; a ray that did not enter reports no hit, zero steps and the
    outer sky colour, which depends on the vertical direction component
    only; a hit implies that the grid was entered and at least one step. *)
Theorem trace_result_coherent (pf : Platform) (vox : list Z) (ro rd : Vector3 float) :
  let tr := result (trace_ray_amanatides_woo pf vox ro rd) in
  (entered_grid tr = true <-> result (ray_aabb ro rd) <> None) /\
  (entered_grid tr = false -> tr = miss_outside (vy rd)) /\
  (hit tr = true -> entered_grid tr = true /\ 1 <= steps tr) /\
  0 <= steps tr <= 256.
Proof.
  cbv zeta. destruct (result (ray_aabb ro rd)) as [[t0 t1]|] eqn:Hclip.
  - rewrite (trace_clipped pf vox ro rd t0 t1 Hclip).
    pose proof (dda_init_state pf ro rd t0 t1) as (_ & _ & _ & _ & Hn & _).
    pose proof (first_iteration_enters pf ro rd t0 t1 Hclip) as Hex.
    set (r := fst (result (dda_init pf ro rd t0 t1))) in *.
    set (s := snd (result (dda_init pf ro rd t0 t1))) in *.
    destruct (dda_loop_reads vox r 256 s) as (He & _).
    pose proof (dda_loop_steps vox r 256 s) as Hb.
    pose proof (dda_loop_first_step vox r 255 s Hex) as Hlo.
    change (S 255) with 256%nat in Hlo.
    split; [split; [discriminate|intros _; exact He]|].
    split; [intros H; congruence|]. split; [intros _; split; [exact He|lia]|lia].
  - rewrite (trace_missed pf vox ro rd Hclip).
    split; [split; [discriminate|intros H; exfalso; apply H; reflexivity]|].
    split; [reflexivity|]. split; [discriminate|simpl; lia].
Qed.

(** ** The step count of a clipped ray *)

Lemma dda_loop_entered_first_load vox r n s :
  loop_exit r s = false ->
  exists rest, loads (events (dda_loop vox r (S n) s)) = cell_index s :: rest.
Proof.
  intros Hex.
  destruct (dda_loop_cases vox r n s) as [[E _]|[(_ & _ & E)|(_ & _ & E)]];
    [congruence| |]; rewrite E; unfold events; cbn [snd loads]; eauto.
Qed.

(** C3 (step count): whenever [ray_aabb] succeeds, the traversal reports
    at least one and at most 256 steps, and the count is the number of
    voxels it has read from the array: the first voxel read is the one
    of the clamped entry cell, so at least one voxel is always tested,
    and never more than 256.  (A ray the box test rejects reports 0
    steps and reads nothing.) *)
Theorem trace_steps_between_1_and_256 (pf : Platform) (vox : list Z)
    (ro rd : Vector3 float) (t0 t1 : float) :
  result (ray_aabb ro rd) = Some (t0, t1) ->
  let out := trace_ray_amanatides_woo pf vox ro rd in
  1 <= steps (result out) <= 256 /\
  steps (result out) = Z.of_nat (length (loads (events out))) /\
  (1 <= length (loads (events out)) <= 256)%nat /\
  exists rest,
    loads (events out) = cell_index (snd (result (dda_init pf ro rd t0 t1))) :: rest.
Proof.
  intros H out.
  assert (steps (result out) = Z.of_nat (length (loads (events out))) /\
          exists rest,
            loads (events out) = cell_index (snd (result (dda_init pf ro rd t0 t1))) :: rest)
    as [Hcount Hfirst].
  { subst out. unfold trace_ray_amanatides_woo.
    rewrite result_bind, events_bind, loads_app, ray_aabb_loads, H. cbn [app].
    rewrite result_bind, events_bind, loads_app, dda_init_loads. cbn [app].
    pose proof (first_iteration_enters pf ro rd t0 t1 H) as Hex.
    pose proof (dda_init_state pf ro rd t0 t1) as (_ & _ & _ & _ & Hn & _).
    destruct (result (dda_init pf ro rd t0 t1)) as [r s]. cbn [fst snd] in *.
    destruct (dda_loop_reads vox r 256 s) as (_ & Hs & _).
    rewrite Hn, Z.add_0_l in Hs. split; [exact Hs|].
    change 256%nat with (S 255). apply dda_loop_entered_first_load. exact Hex. }
  assert (1 <= steps (result out) <= 256) as Hb.
  { subst out. rewrite (trace_clipped pf vox ro rd t0 t1 H).
    pose proof (first_iteration_enters pf ro rd t0 t1 H) as Hex.
    pose proof (dda_init_state pf ro rd t0 t1) as (_ & _ & _ & _ & Hn & _).
    set (r := fst (result (dda_init pf ro rd t0 t1))) in *.
    set (s := snd (result (dda_init pf ro rd t0 t1))) in *.
    pose proof (dda_loop_first_step vox r 255 s Hex) as Hlo.
    pose proof (dda_loop_steps vox r 256 s) as Hhi.
    change (S 255) with 256%nat in Hlo. lia. }
  split; [exact Hb|]. split; [exact Hcount|]. split; [lia|exact Hfirst].
Qed.

Lemma trace_steps_between_1_and_256_witness :
  result (ray_aabb Demo.cam Demo.centre_dir) <> None /\
  1 <= steps (result (trace_ray_amanatides_woo Demo.platform (voxels Demo.scene)
                        Demo.cam Demo.centre_dir)) <= 256 /\
  steps (result (trace_ray_amanatides_woo Demo.platform (voxels Demo.scene)
                   Demo.cam Demo.centre_dir)) =
    Z.of_nat (length (loads (events (trace_ray_amanatides_woo Demo.platform
                                       (voxels Demo.scene) Demo.cam Demo.centre_dir)))).
Proof.
  destruct (result (ray_aabb Demo.cam Demo.centre_dir)) as [[t0 t1]|] eqn:Hclip;
    [|vm_compute in Hclip; discriminate].
  split; [discriminate|].
  pose proof (trace_steps_between_1_and_256 Demo.platform (voxels Demo.scene)
                Demo.cam Demo.centre_dir t0 t1 Hclip) as (Hb & Hc & _).
  split; [exact Hb|exact Hc].
Defined.

(** ** The frame loop, pixel by pixel *)

Lemma advance_ray_shift {F : Type} `{Scalar F} (n : nat) (ray dx : Vector3 F) :
  advance_ray n (Vector3Add ray dx) dx = advance_ray (S n) ray dx.
Proof. reflexivity. Qed.

(** An invariant over the pixels of one scanline. *)
Lemma render_row_inv pf vox cam dx (P : Z -> FrameStats * list Color -> Prop) (n : nat) :
  forall ray idx acc,
    P idx acc ->
    (forall j a, idx <= j < idx + Z.of_nat n -> P j a ->
       P (j + 1) (render_pixel pf vox cam (advance_ray (Z.to_nat (j - idx)) ray dx) j a)) ->
    P (idx + Z.of_nat n) (render_row pf vox cam dx n ray idx acc).
Proof.
  induction n as [|n IH]; intros ray idx acc H0 Hstep.
  - simpl. replace (idx + Z.of_nat 0) with idx by lia. exact H0.
  - simpl render_row. replace (idx + Z.of_nat (S n)) with ((idx + 1) + Z.of_nat n) by lia.
    apply IH.
    + specialize (Hstep idx acc ltac:(lia) H0).
      replace (Z.to_nat (idx - idx)) with 0%nat in Hstep by lia. exact Hstep.
    + intros j a Hj Ha. specialize (Hstep j a ltac:(lia) Ha).
      replace (Z.to_nat (j - idx)) with (S (Z.to_nat (j - (idx + 1)))) in Hstep by lia.
      exact Hstep.
Qed.

(** An invariant over all pixels of a frame, in raster order: pixel
    (x, y) has index [y * IMG_W + x] and is traced along [pixel_ray]. *)
Lemma render_frame_inv pf vox cam c (P : Z -> FrameStats * list Color -> Prop) acc0 :
  P 0 acc0 ->
  (forall x y a, 0 <= y < IMG_H -> 0 <= x < IMG_W -> P (y * IMG_W + x) a ->
     P (y * IMG_W + x + 1)
       (render_pixel pf vox cam (pixel_ray c (Z.to_nat x) y) (y * IMG_W + x) a)) ->
  P (IMG_H * IMG_W)
    (for_range 0 (Z.to_nat IMG_H)
       (fun y acc => render_row pf vox cam (ray_step_x c) (Z.to_nat IMG_W)
                                (row_first_ray c y) (y * IMG_W) acc) acc0).
Proof.
  intros H0 Hstep.
  pose proof (for_range_inv (fun y a => P (y * IMG_W) a)
                (fun y acc => render_row pf vox cam (ray_step_x c) (Z.to_nat IMG_W)
                                         (row_first_ray c y) (y * IMG_W) acc)
                (Z.to_nat IMG_H) 0 acc0) as H.
  cbv beta in H.
  replace (0 + Z.of_nat (Z.to_nat IMG_H)) with IMG_H in H by (unfold IMG_H; lia).
  apply H; [exact H0|]. clear H.
  intros y a Hy Ha.
  replace ((y + 1) * IMG_W) with (y * IMG_W + Z.of_nat (Z.to_nat IMG_W))
    by (unfold IMG_W; lia).
  apply render_row_inv; [exact Ha|].
  intros j b Hj Hb.
  assert (0 <= j - y * IMG_W < IMG_W) as Hx by (unfold IMG_W in *; lia).
  specialize (Hstep (j - y * IMG_W) y b ltac:(unfold IMG_H in *; lia) Hx).
  replace (y * IMG_W + (j - y * IMG_W)) with j in Hstep by lia.
  apply Hstep. exact Hb.
Qed.

(** Facts about one trace result that the counters rely on. *)
Lemma trace_result_facts pf vox ro rd :
  let tr := result (trace_ray_amanatides_woo pf vox ro rd) in
  (hit tr = true -> entered_grid tr = true) /\
  (entered_grid tr = true -> 1 <= steps tr <= 256) /\
  (entered_grid tr = false -> steps tr = 0).
Proof.
  cbv zeta. destruct (result (ray_aabb ro rd)) as [[t0 t1]|] eqn:Hclip.
  - rewrite (trace_clipped pf vox ro rd t0 t1 Hclip).
    pose proof (dda_init_state pf ro rd t0 t1) as (_ & _ & _ & _ & Hn & _).
    pose proof (first_iteration_enters pf ro rd t0 t1 Hclip) as Hex.
    set (r := fst (result (dda_init pf ro rd t0 t1))) in *.
    set (s := snd (result (dda_init pf ro rd t0 t1))) in *.
    destruct (dda_loop_reads vox r 256 s) as (He & _).
    pose proof (dda_loop_steps vox r 256 s) as Hb.
    pose proof (dda_loop_first_step vox r 255 s Hex) as Hlo.
    change (S 255) with 256%nat in Hlo.
    split; [intros _; exact He|]. split; [intros _; lia|]. intros H. congruence.
  - rewrite (trace_missed pf vox ro rd Hclip).
    split; [discriminate|]. split; [discriminate|reflexivity].
Qed.

Lemma count_ray_counters k st tr :
  (hit tr = true -> entered_grid tr = true) ->
  (entered_grid tr = true -> 1 <= steps tr <= 256) ->
  (entered_grid tr = false -> steps tr = 0) ->
  counters_ok k st -> counters_ok (k + 1) (count_ray st tr).
Proof.
  intros Hh He Hn (H1 & H2 & H3 & H4 & H5). unfold counters_ok, count_ray. cbn.
  destruct (entered_grid tr) eqn:E.
  - specialize (He eq_refl). destruct (hit tr); destruct (Z.gtb_spec (steps tr) (max_steps st));
      repeat split; lia.
  - specialize (Hn eq_refl). destruct (hit tr) eqn:Eh; [specialize (Hh eq_refl); discriminate|].
    destruct (Z.gtb_spec (steps tr) (max_steps st)); repeat split; lia.
Qed.

Lemma finish_stats_counters (st : FrameStats) (dt : float) :
  rays_entered_grid (finish_stats st dt) = rays_entered_grid st /\
  hits (finish_stats st dt) = hits st /\
  total_steps (finish_stats st dt) = total_steps st /\
  max_steps (finish_stats st dt) = max_steps st /\
  (rays st > 0 ->
     avg_steps_per_ray (finish_stats st dt) =
       F32.div (F32.of_int (total_steps st)) (F32.of_int (rays st)) /\
     hit_ratio (finish_stats st dt) = F32.div (F32.of_int (hits st)) (F32.of_int (rays st))).
Proof.
  unfold finish_stats.
  destruct (Z.gtb_spec (rays st) 0); destruct (F32.ltb Lit.f_1em6 dt);
    repeat split; try reflexivity; intros; lia.
Qed.

(** The accumulator after all pixels, with its ray count. *)
Lemma render_accumulated pf g (P : Z -> FrameStats * list Color -> Prop)
    (Q : FrameStats * list Color -> Prop) :
  let cam := camera_position pf (time_s g) (freeze_camera g) in
  let c := camera_frame pf cam in
  P 0 (mkFrameStats (IMG_W * IMG_H) 0 0 0 0 Lit.f_0 Lit.f_0 Lit.f_0 Lit.f_0, pixels g) ->
  (forall x y a, 0 <= y < IMG_H -> 0 <= x < IMG_W -> P (y * IMG_W + x) a ->
     P (y * IMG_W + x + 1)
       (render_pixel pf (voxels g) cam (pixel_ray c (Z.to_nat x) y) (y * IMG_W + x) a)) ->
  (forall a, P (IMG_H * IMG_W) a -> rays (fst a) = IMG_W * IMG_H -> Q a) ->
  forall dt, exists a,
    Q a /\ render_voxel_image pf g dt = (with_pixels g (snd a), finish_stats (fst a) dt).
Proof.
  intros cam c H0 Hstep HQ dt. unfold render_voxel_image. cbv zeta. fold cam. fold c.
  match goal with |- context [for_range 0 ?n ?body ?acc] =>
    pose proof (render_frame_inv pf (voxels g) cam c P acc H0 Hstep) as HP;
    pose proof (fixed_fields_eq _ _ (render_rows_fixed pf (voxels g) cam c n acc)) as (Hr & _);
    cbn [fst rays] in Hr;
    revert HP Hr; generalize (for_range 0 n body acc)
  end.
  intros a HP Hr. exists a. split; [apply HQ; assumption|reflexivity].
Qed.

(** [render_voxel_image] (lines 311-389), the counters of a frame:
    57600 rays are counted; hits never exceed the rays that entered the
    grid, which never exceed the rays; every ray that entered contributes
    between 1 and 256 steps to the total; the maximum is at most 256 and
    at most the total.  In particular the totals stay far below
    [INT_MAX], so the [int] additions of the loop cannot overflow. *)
Theorem render_counters_consistent (pf : Platform) (g : AppState) (dt : float) :
  let st := snd (render_voxel_image pf g dt) in
  rays st = 57600 /\
  0 <= hits st <= rays_entered_grid st /\
  rays_entered_grid st <= rays st /\
  rays_entered_grid st <= total_steps st <= 256 * rays_entered_grid st /\
  0 <= max_steps st <= 256 /\
  max_steps st <= total_steps st /\
  total_steps st <= 14745600 < F32.int_max.
Proof.
  cbv zeta.
  destruct (render_accumulated pf g (fun k a => counters_ok k (fst a))
              (fun a => counters_ok (IMG_H * IMG_W) (fst a) /\ rays (fst a) = IMG_W * IMG_H))
    with (dt := dt) as (a & [(H1 & H2 & H3 & H4 & H5) Hr] & E).
  - unfold counters_ok. cbn. lia.
  - intros x y a Hy Hx Ha. unfold render_pixel. cbn [fst].
    destruct (trace_result_facts pf (voxels g)
                (camera_position pf (time_s g) (freeze_camera g))
                (Vector3Normalize
                   (pixel_ray (camera_frame pf (camera_position pf (time_s g) (freeze_camera g)))
                              (Z.to_nat x) y))) as (F1 & F2 & F3).
    apply count_ray_counters; assumption.
  - intros a Ha Hr. split; assumption.
  - rewrite E. cbn [snd].
    destruct (finish_stats_counters (fst a) dt) as (C1 & C2 & C3 & C4 & _).
    destruct (finish_stats_throughput (fst a) dt) as (Fr & _).
    rewrite C1, C2, C3, C4, Fr, Hr.
    unfold IMG_W, IMG_H, F32.int_max in *. lia.
Qed.

Lemma count_ray_no_hit st tr : hit tr = false -> hits (count_ray st tr) = hits st.
Proof. intros H. unfold count_ray. cbn. rewrite H. reflexivity. Qed.

Lemma trace_empty_grid pf vox ro rd :
  empty_grid vox -> hit (result (trace_ray_amanatides_woo pf vox ro rd)) = false.
Proof.
  intros Hempty.
  destruct (hit (result (trace_ray_amanatides_woo pf vox ro rd))) eqn:Hh; [|reflexivity].
  exfalso. revert Hh. unfold trace_ray_amanatides_woo. rewrite result_bind.
  destruct (result (ray_aabb ro rd)) as [[t0 t1]|]; [|discriminate].
  rewrite result_bind. destruct (result (dda_init pf ro rd t0 t1)) as [r s].
  intros Hh. destruct (dda_loop_reads vox r 256 s) as (_ & _ & _ & Hhit).
  destruct (Hhit Hh) as (before & i & _ & _ & Hi). apply Hi. apply Hempty.
Qed.

(** [render_voxel_image] over an empty grid: no ray hits, for any ray
    whatever, so the frame counts 0 hits and its hit ratio is +0.0. *)
Theorem render_empty_grid_no_hits (pf : Platform) (g : AppState) (dt : float) :
  empty_grid (voxels g) ->
  (forall ro rd, hit (result (trace_ray_amanatides_woo pf (voxels g) ro rd)) = false) /\
  hits (snd (render_voxel_image pf g dt)) = 0 /\
  hit_ratio (snd (render_voxel_image pf g dt)) = Lit.f_0.
Proof.
  intros Hempty. split; [intros; apply trace_empty_grid; assumption|].
  destruct (render_accumulated pf g (fun _ a => hits (fst a) = 0)
              (fun a => hits (fst a) = 0 /\ rays (fst a) = IMG_W * IMG_H))
    with (dt := dt) as (a & [Hh Hr] & E).
  - reflexivity.
  - intros x y a _ _ Ha. unfold render_pixel. cbn [fst].
    rewrite count_ray_no_hit; [assumption|]. apply trace_empty_grid. assumption.
  - intros a Ha Hr. split; assumption.
  - rewrite E. cbn [snd].
    destruct (finish_stats_counters (fst a) dt) as (_ & C2 & _ & _ & Cavg).
    destruct Cavg as [_ Hratio]; [rewrite Hr; unfold IMG_W, IMG_H; lia|].
    rewrite C2, Hratio, Hh, Hr. split; reflexivity.
Qed.

Lemma render_empty_grid_no_hits_witness :
  empty_grid (voxels Demo.blank) /\
  hits (snd (render_voxel_image Demo.platform Demo.blank Demo.dt_64)) = 0.
Proof.
  assert (empty_grid (voxels Demo.blank)) as He.
  { intros i. unfold read_voxel, Demo.blank. cbn [voxels].
    destruct (replicate (Z.to_nat GRID_SIZE) 0 !! Z.to_nat i) as [v|] eqn:E; [|reflexivity].
    apply lookup_replicate in E as [-> _]. reflexivity. }
  split; [exact He|].
  exact (proj1 (proj2 (render_empty_grid_no_hits Demo.platform Demo.blank Demo.dt_64 He))).
Defined.

Lemma to_color_bytes pf v : opaque_bytes (to_color pf v).
Proof.
  unfold opaque_bytes, byte_range, to_color, channel. cbn.
  repeat split; try apply clamp_i32_range; lia.
Qed.

(** [render_voxel_image] (lines 349-377), the pixel buffer: for a buffer
    of [IMG_W * IMG_H] pixels, after the call the pixel at index
    [y * IMG_W + x] is the colour traced along the incremental ray of
    pixel (x, y); every pixel is opaque with channels in 0..255, whatever
    the traced colour was (NaN included); the buffer keeps its length
    and no other field of the state changes. *)
Theorem render_writes_every_pixel (pf : Platform) (g : AppState) (dt : float) :
  length (pixels g) = Z.to_nat (IMG_W * IMG_H) ->
  let cam := camera_position pf (time_s g) (freeze_camera g) in
  let c := camera_frame pf cam in
  let out := pixels (fst (render_voxel_image pf g dt)) in
  length out = Z.to_nat (IMG_W * IMG_H) /\
  (forall x y, 0 <= x < IMG_W -> 0 <= y < IMG_H ->
     out !! Z.to_nat (y * IMG_W + x) = Some (pixel_color pf (voxels g) cam c x y)) /\
  Forall opaque_bytes out /\
  fst (render_voxel_image pf g dt) = with_pixels g out.
Proof.
  intros Hlen cam c out.
  destruct (render_accumulated pf g
              (fun k a => length (snd a) = Z.to_nat (IMG_W * IMG_H) /\
                          forall x y, 0 <= x < IMG_W -> 0 <= y < IMG_H ->
                            y * IMG_W + x < k ->
                            snd a !! Z.to_nat (y * IMG_W + x)
                              = Some (pixel_color pf (voxels g) cam c x y))
              (fun a => length (snd a) = Z.to_nat (IMG_W * IMG_H) /\
                        forall x y, 0 <= x < IMG_W -> 0 <= y < IMG_H ->
                          snd a !! Z.to_nat (y * IMG_W + x)
                            = Some (pixel_color pf (voxels g) cam c x y)))
    with (dt := dt) as (a & [La Hpix] & E).
  - split; [exact Hlen|]. intros x y Hx Hy Hk. unfold IMG_W in *. lia.
  - intros x y a Hy Hx [La Ha]. unfold render_pixel. cbn [snd]. fold cam. fold c.
    split; [rewrite length_insert; exact La|].
    intros x' y' Hx' Hy' Hk.
    destruct (Z.eq_dec (y' * IMG_W + x') (y * IMG_W + x)) as [Heq|Hne].
    + assert (x' = x /\ y' = y) as [-> ->] by (unfold IMG_W in *; lia).
      rewrite list_lookup_insert_eq by (rewrite La; unfold IMG_W, IMG_H in *; lia).
      reflexivity.
    + rewrite list_lookup_insert_ne by (unfold IMG_W in *; lia).
      apply Ha; try assumption. lia.
  - intros a [La Ha] _. split; [exact La|].
    intros x y Hx Hy. apply Ha; try assumption. unfold IMG_W, IMG_H in *. lia.
  - subst out. rewrite E. cbn [fst pixels with_pixels].
    split; [exact La|]. split; [exact Hpix|]. split; [|reflexivity].
    apply Forall_lookup. intros i p Hi.
    assert (i < Z.to_nat (IMG_W * IMG_H))%nat as Hlt
      by (rewrite <- La; eapply lookup_lt_Some; exact Hi).
    specialize (Hpix (Z.of_nat i mod IMG_W) (Z.of_nat i / IMG_W)).
    pose proof (Z.mod_pos_bound (Z.of_nat i) IMG_W ltac:(unfold IMG_W; lia)) as Hm.
    pose proof (Z.div_mod (Z.of_nat i) IMG_W ltac:(unfold IMG_W; lia)) as Hd.
    assert (0 <= Z.of_nat i / IMG_W < IMG_H) as Hq.
    { split; [apply Z.div_pos; unfold IMG_W; lia|].
      apply Z.div_lt_upper_bound; unfold IMG_W, IMG_H in *; lia. }
    specialize (Hpix Hm Hq).
    replace (Z.to_nat (Z.of_nat i / IMG_W * IMG_W + Z.of_nat i mod IMG_W)) with i in Hpix
      by lia.
    rewrite Hi in Hpix. inversion Hpix. apply to_color_bytes.
Qed.

Lemma render_writes_every_pixel_witness :
  length (pixels Demo.scene_stale) = Z.to_nat (IMG_W * IMG_H) /\
  pixels (fst (render_voxel_image Demo.platform Demo.scene_stale Demo.dt_64)) !! 0%nat =
    Some (pixel_color Demo.platform (voxels Demo.scene_stale) Demo.cam Demo.frame 0 0).
Proof.
  pose proof (render_writes_every_pixel Demo.platform Demo.scene_stale Demo.dt_64
                (length_replicate _ _)) as (_ & Hpix & _).
  split; [apply length_replicate|].
  exact (Hpix 0 0 ltac:(unfold IMG_W; lia) ltac:(unfold IMG_H; lia)).
Defined.

(** ** Divisions of a traversal *)

Lemma divisors_app l1 l2 : divisors (l1 ++ l2) = divisors l1 ++ divisors l2.
Proof.
  induction l1 as [|[num den|i] l1 IH]; simpl; [reflexivity| |assumption].
  rewrite IH. reflexivity.
Qed.

Lemma not_below_eps_safe d : F32.ltb (F32.fabsf d) Lit.f_1em6 = false -> safe_divisor d.
Proof.
  intros H. split; [exact H|].
  destruct (F32.is_zero d) eqn:Hz; [|reflexivity].
  apply zero_below_eps in Hz. congruence.
Qed.

Lemma ltb_asym a b : F32.ltb a b = true -> F32.ltb b a = false.
Proof.
  intros H. destruct (ltb_true_not_nan a b H) as [Na Nb].
  apply ltb_key in H; try assumption.
  destruct (F32.ltb b a) eqn:E; [|reflexivity].
  apply ltb_key in E; try assumption.
  exfalso. eapply key_lt_irrefl. eapply key_lt_trans; eassumption.
Qed.

Lemma at_most_all_nil {A : Type} (P : A -> Prop) (n : nat) : at_most_all P n [].
Proof. split; [constructor|simpl; lia]. Qed.

Lemma at_most_all_app {A : Type} (P : A -> Prop) (n1 n2 : nat) (l1 l2 : list A) :
  at_most_all P n1 l1 -> at_most_all P n2 l2 -> at_most_all P (n1 + n2) (l1 ++ l2).
Proof.
  intros [F1 L1] [F2 L2]. split; [apply Forall_app; split; assumption|].
  rewrite length_app. lia.
Qed.

Lemma axis_slab_divisors rd orig dir mn mx tmin tmax :
  dir = vx rd \/ dir = vy rd \/ dir = vz rd ->
  at_most_all (guarded_component rd) 1
    (divisors (events (axis_slab orig dir mn mx tmin tmax))).
Proof.
  intros Hd. destruct (F32.ltb (F32.fabsf dir) Lit.f_1em6) eqn:E.
  - rewrite axis_slab_parallel by assumption. apply at_most_all_nil.
  - rewrite axis_slab_crossing by assumption. split; [|simpl; lia].
    constructor; [|constructor]. split; [apply not_below_eps_safe; exact E|exact Hd].
Qed.

Lemma axis_crossing_divisors rd t nb p d :
  d = vx rd \/ d = vy rd \/ d = vz rd ->
  at_most_all (guarded_component rd) 2 (divisors (events (axis_crossing t nb p d))).
Proof.
  intros Hd. unfold axis_crossing. destruct (F32.ltb Lit.f_1em6 (F32.fabsf d)) eqn:E.
  - assert (guarded_component rd d) as H
      by (split; [apply not_below_eps_safe, ltb_asym, E|exact Hd]).
    unfold at_most_all, mbind, Tr_bind, fdiv, events. cbn.
    split; [constructor; [exact H|constructor; [exact H|constructor]]|lia].
  - apply at_most_all_nil.
Qed.

Lemma ray_aabb_divisors ro rd :
  at_most_all (guarded_component rd) 3 (divisors (events (ray_aabb ro rd))).
Proof.
  unfold ray_aabb. cbv zeta.
  rewrite events_bind, divisors_app. apply (at_most_all_app _ 1 2); [apply axis_slab_divisors; auto|].
  destruct (result (axis_slab (vx ro) _ _ _ _ _)) as [[] [a1 b1]]; simpl negb; cbv iota;
    [|apply at_most_all_nil].
  rewrite events_bind, divisors_app. apply (at_most_all_app _ 1 1); [apply axis_slab_divisors; auto|].
  destruct (result (axis_slab (vy ro) _ _ _ _ _)) as [[] [a2 b2]]; simpl negb; cbv iota;
    [|apply at_most_all_nil].
  rewrite events_bind, divisors_app. apply (at_most_all_app _ 1 0); [apply axis_slab_divisors; auto|].
  destruct (result (axis_slab (vz ro) _ _ _ _ _)) as [[] [a3 b3]]; simpl negb; cbv iota;
    [|apply at_most_all_nil].
  destruct (F32.ltb _ _); apply at_most_all_nil.
Qed.

Lemma dda_init_divisors pf ro rd t0 t1 :
  at_most_all (guarded_component rd) 6 (divisors (events (dda_init pf ro rd t0 t1))).
Proof.
  unfold dda_init. cbv zeta.
  rewrite events_bind, divisors_app.
  apply (at_most_all_app _ 2 4); [apply axis_crossing_divisors; auto|].
  destruct (result (axis_crossing _ _ _ (vx rd))) as [mx dx].
  rewrite events_bind, divisors_app.
  apply (at_most_all_app _ 2 2); [apply axis_crossing_divisors; auto|].
  destruct (result (axis_crossing _ _ _ (vy rd))) as [my dy].
  rewrite events_bind, divisors_app.
  apply (at_most_all_app _ 2 0); [apply axis_crossing_divisors; auto|].
  destruct (result (axis_crossing _ _ _ (vz rd))) as [mz dz].
  apply at_most_all_nil.
Qed.

Lemma dda_loop_divisors vox r n : forall s, divisors (events (dda_loop vox r n s)) = [].
Proof.
  induction n as [|n IH]; intros s; [reflexivity|].
  destruct (dda_loop_cases vox r n s) as [[_ E]|[(_ & _ & E)|(_ & _ & E)]]; rewrite E;
    unfold events; simpl; try reflexivity. apply IH.
Qed.

(** [trace_ray_amanatides_woo], [ray_aabb] and [axis_slab], divisions: a
    traversal divides at most nine times (three times in the box test,
    six times in the DDA setup, never in the loop), and every divisor is
    a direction component that passed an epsilon guard: its magnitude is
    not below 1e-6, so it is not zero. *)
Theorem trace_never_divides_by_zero (pf : Platform) (vox : list Z) (ro rd : Vector3 float) :
  at_most_all (guarded_component rd) 9
    (divisors (events (trace_ray_amanatides_woo pf vox ro rd))).
Proof.
  unfold trace_ray_amanatides_woo.
  rewrite events_bind, divisors_app.
  apply (at_most_all_app _ 3 6); [apply ray_aabb_divisors|].
  destruct (result (ray_aabb ro rd)) as [[t0 t1]|]; [|apply at_most_all_nil].
  rewrite events_bind, divisors_app.
  apply (at_most_all_app _ 6 0); [apply dda_init_divisors|].
  destruct (result (dda_init pf ro rd t0 t1)) as [r s].
  rewrite dda_loop_divisors. apply at_most_all_nil.
Qed.

(** ** Rays parallel to a face *)

Lemma axis_slab_parallel_outside o d hi tmin tmax :
  parallel_outside o d hi ->
  fst (result (axis_slab o d Lit.f_0 hi tmin tmax)) = false.
Proof.
  intros [Hpar Hout]. rewrite axis_slab_parallel by assumption. unfold result. cbn [fst].
  destruct Hout as [H|H]; rewrite H; [reflexivity|]. rewrite orb_true_r. reflexivity.
Qed.

(** [ray_aabb] (lines 177-189) and [axis_slab] (lines 157-159): a ray
    parallel to the slab of some axis whose origin lies outside that slab
    is rejected whatever its other components are; the traversal then
    reads no voxel and returns the outer sky colour with zero steps. *)
Theorem parallel_ray_outside_slab_is_rejected (pf : Platform) (vox : list Z)
    (ro rd : Vector3 float) :
  parallel_outside (vx ro) (vx rd) (F32.of_int GRID_X) \/
  parallel_outside (vy ro) (vy rd) (F32.of_int GRID_Y) \/
  parallel_outside (vz ro) (vz rd) (F32.of_int GRID_Z) ->
  result (ray_aabb ro rd) = None /\
  result (trace_ray_amanatides_woo pf vox ro rd) = miss_outside (vy rd) /\
  loads (events (trace_ray_amanatides_woo pf vox ro rd)) = [].
Proof.
  intros Hout.
  assert (result (ray_aabb ro rd) = None) as Hnone.
  { unfold ray_aabb. cbv zeta. rewrite result_bind.
    pose proof (axis_slab_parallel_outside (vx ro) (vx rd) (F32.of_int GRID_X)
                  Lit.f_m1e30 Lit.f_1e30) as Hx.
    destruct (result (axis_slab (vx ro) _ _ _ _ _)) as [ok1 [a1 b1]]. cbn [fst] in Hx.
    destruct ok1; [|reflexivity]. simpl negb. cbv iota. rewrite result_bind.
    pose proof (axis_slab_parallel_outside (vy ro) (vy rd) (F32.of_int GRID_Y) a1 b1) as Hy.
    destruct (result (axis_slab (vy ro) _ _ _ _ _)) as [ok2 [a2 b2]]. cbn [fst] in Hy.
    destruct ok2; [|reflexivity]. simpl negb. cbv iota. rewrite result_bind.
    pose proof (axis_slab_parallel_outside (vz ro) (vz rd) (F32.of_int GRID_Z) a2 b2) as Hz.
    destruct (result (axis_slab (vz ro) _ _ _ _ _)) as [ok3 [a3 b3]]. cbn [fst] in Hz.
    destruct ok3; [|reflexivity].
    destruct Hout as [H|[H|H]]; [specialize (Hx H)|specialize (Hy H)|specialize (Hz H)];
      discriminate. }
  split; [exact Hnone|]. split; [apply trace_missed; exact Hnone|].
  unfold trace_ray_amanatides_woo. rewrite events_bind, loads_app, ray_aabb_loads, Hnone.
  reflexivity.
Qed.

Lemma parallel_ray_outside_slab_is_rejected_witness :
  parallel_outside (F32.of_int 30) Lit.f_0 (F32.of_int GRID_X) /\
  result (ray_aabb (mkV3 (F32.of_int 30) Lit.f_8_5 (F32.of_int 12))
                   (mkV3 Lit.f_0 Lit.f_m1 Lit.f_0)) = None.
Proof.
  assert (parallel_outside (F32.of_int 30) Lit.f_0 (F32.of_int GRID_X)) as H
    by (split; [reflexivity|right; reflexivity]).
  split; [exact H|].
  exact (proj1 (parallel_ray_outside_slab_is_rejected Demo.platform []
                  (mkV3 (F32.of_int 30) Lit.f_8_5 (F32.of_int 12))
                  (mkV3 Lit.f_0 Lit.f_m1 Lit.f_0) (or_introl H))).
Defined.

(** ** The path of a traversal *)

Lemma dda_init_unit_step pf ro rd t0 t1 :
  unit_step (fst (result (dda_init pf ro rd t0 t1))).
Proof.
  unfold dda_init. cbv zeta.
  rewrite result_bind. destruct (result (axis_crossing _ _ _ (vx rd))) as [mx dx].
  rewrite result_bind. destruct (result (axis_crossing _ _ _ (vy rd))) as [my dy].
  rewrite result_bind. destruct (result (axis_crossing _ _ _ (vz rd))) as [mz dz].
  rewrite result_ret. unfold unit_step. cbn [fst step ix iy iz].
  destruct (F32.ltb Lit.f_0 (vx rd)), (F32.ltb Lit.f_0 (vy rd)), (F32.ltb Lit.f_0 (vz rd));
    repeat split; auto.
Qed.

Lemma advance_adjacent r s :
  unit_step r -> adjacent_index (cell_index s) (cell_index (dda_advance r (count_step s))).
Proof.
  intros (Hx & Hy & Hz). unfold adjacent_index, cell_index, dda_advance, voxel_index,
    GRID_X, GRID_Y.
  destruct (dda_axis (count_step s)); cbn [cell_x cell_y cell_z count_step]; lia.
Qed.

Lemma dda_loop_first_load vox r n s :
  loads (events (dda_loop vox r n s)) = [] \/
  exists t, loads (events (dda_loop vox r n s)) = cell_index s :: t.
Proof.
  destruct n as [|n]; [left; reflexivity|].
  destruct (dda_loop_cases vox r n s) as [[_ E]|[(_ & _ & E)|(_ & _ & E)]]; rewrite E;
    unfold events; cbn [snd loads]; [left; reflexivity|right; eauto|right; eauto].
Qed.

Lemma dda_loop_linked vox r n :
  unit_step r -> forall s, linked adjacent_index (loads (events (dda_loop vox r n s))).
Proof.
  intros Hr. induction n as [|n IH]; intros s; [exact I|].
  destruct (dda_loop_cases vox r n s) as [[_ E]|[(_ & _ & E)|(_ & _ & E)]]; rewrite E;
    unfold events at 1; cbn [snd loads]; try exact I.
  specialize (IH (dda_advance r (count_step s))).
  destruct (dda_loop_first_load vox r n (dda_advance r (count_step s))) as [H|[t H]];
    rewrite H in *; [exact I|].
  split; [apply advance_adjacent; exact Hr|exact IH].
Qed.

(** [trace_ray_amanatides_woo] (lines 216-220 and 281-296), the path:
    each advance moves one coordinate of the cell by one, so the voxels a
    traversal reads, in order, form a walk through face-adjacent cells. *)
Theorem trace_walks_adjacent_cells (pf : Platform) (vox : list Z) (ro rd : Vector3 float) :
  linked adjacent_index (loads (events (trace_ray_amanatides_woo pf vox ro rd))).
Proof.
  unfold trace_ray_amanatides_woo.
  rewrite events_bind, loads_app, ray_aabb_loads. cbn [app].
  destruct (result (ray_aabb ro rd)) as [[t0 t1]|]; [|exact I].
  rewrite events_bind, loads_app, dda_init_loads. cbn [app].
  pose proof (dda_init_unit_step pf ro rd t0 t1) as Hu.
  destruct (result (dda_init pf ro rd t0 t1)) as [r s]. apply dda_loop_linked. exact Hu.
Qed.

(** ** The frame loop *)

Lemma render_state_fields pf g dt :
  voxels (fst (render_voxel_image pf g dt)) = voxels g /\
  time_s (fst (render_voxel_image pf g dt)) = time_s g /\
  freeze_camera (fst (render_voxel_image pf g dt)) = freeze_camera g /\
  request_quit (fst (render_voxel_image pf g dt)) = request_quit g /\
  frame_ms (fst (render_voxel_image pf g dt)) = frame_ms g /\
  fps_smooth (fst (render_voxel_image pf g dt)) = fps_smooth g.
Proof. unfold render_voxel_image. cbv zeta. cbn [fst]. repeat split; reflexivity. Qed.

Lemma overlay_buttons_fields g fp qp :
  pixels (overlay_buttons g fp qp) = pixels g /\
  voxels (overlay_buttons g fp qp) = voxels g /\
  time_s (overlay_buttons g fp qp) = time_s g /\
  frame_stats (overlay_buttons g fp qp) = frame_stats g /\
  frame_ms (overlay_buttons g fp qp) = frame_ms g /\
  fps_smooth (overlay_buttons g fp qp) = fps_smooth g /\
  freeze_camera (overlay_buttons g fp qp) = xorb (freeze_camera g) fp /\
  request_quit (overlay_buttons g fp qp) = request_quit g || qp.
Proof.
  unfold overlay_buttons. destruct fp, qp; cbn; repeat split;
    try reflexivity; try (destruct (freeze_camera g); reflexivity);
    try (destruct (request_quit g); reflexivity).
Qed.

(** An iteration, field by field. *)
Lemma frame_iteration_fields pf g ft fp qp :
  let dt := frame_dt ft in
  let g' := update_timers g dt in
  let g'' := frame_iteration pf g ft fp qp in
  pixels g'' = pixels (fst (render_voxel_image pf g' dt)) /\
  frame_stats g'' = snd (render_voxel_image pf g' dt) /\
  voxels g'' = voxels g /\
  time_s g'' = time_s g' /\
  frame_ms g'' = F32.mul dt Lit.f_1000 /\
  freeze_camera g'' = xorb (freeze_camera g) fp /\
  request_quit g'' = request_quit g || qp.
Proof.
  cbv zeta. unfold frame_iteration. cbv zeta.
  pose proof (render_state_fields pf (update_timers g (frame_dt ft)) (frame_dt ft))
    as (Rv & Rt & Rf & Rq & Rm & Rs).
  destruct (render_voxel_image pf (update_timers g (frame_dt ft)) (frame_dt ft)) as [g1 st].
  cbn [fst snd] in *.
  match goal with |- context [overlay_buttons ?h fp qp] =>
    pose proof (overlay_buttons_fields h fp qp) as (Op & Ov & Ot & Ost & Om & Os & Of & Oq)
  end.
  cbn [pixels voxels time_s frame_stats frame_ms fps_smooth freeze_camera request_quit] in *.
  rewrite Op, Ov, Ot, Ost, Om, Of, Oq, Rv, Rt, Rf, Rq, Rm.
  repeat split; reflexivity.
Qed.

(** Two renderings of the same grid from the same camera position share
    their pixels and their accumulated counters, whatever the frame
    times are. *)
Lemma render_same_scene pf g1 g2 dt1 dt2 :
  length (pixels g1) = Z.to_nat (IMG_W * IMG_H) ->
  length (pixels g2) = Z.to_nat (IMG_W * IMG_H) ->
  voxels g1 = voxels g2 ->
  camera_position pf (time_s g1) (freeze_camera g1) =
    camera_position pf (time_s g2) (freeze_camera g2) ->
  exists a,
    length (snd a) = Z.to_nat (IMG_W * IMG_H) /\
    render_voxel_image pf g1 dt1 = (with_pixels g1 (snd a), finish_stats (fst a) dt1) /\
    render_voxel_image pf g2 dt2 = (with_pixels g2 (snd a), finish_stats (fst a) dt2).
Proof.
  intros L1 L2 Hvox Hcam. unfold render_voxel_image. cbv zeta.
  rewrite <- Hvox, <- Hcam.
  set (cam := camera_position pf (time_s g1) (freeze_camera g1)).
  set (c := camera_frame pf cam).
  set (st0 := mkFrameStats (IMG_W * IMG_H) 0 0 0 0 Lit.f_0 Lit.f_0 Lit.f_0 Lit.f_0).
  pose proof (render_rows_agree pf (voxels g1) cam c (Z.to_nat IMG_H)
                (st0, pixels g1) (st0, pixels g2)) as H.
  destruct H as (Hst & Hlen & Htake).
  { split; [reflexivity|]. split; [cbn [snd]; congruence|reflexivity]. }
  pose proof (render_frame_inv pf (voxels g1) cam c
                (fun _ a => length (snd a) = Z.to_nat (IMG_W * IMG_H)) (st0, pixels g1) L1)
    as Hkeep.
  cbv beta in Hkeep.
  assert (forall x y a, 0 <= y < IMG_H -> 0 <= x < IMG_W ->
            length (snd a) = Z.to_nat (IMG_W * IMG_H) ->
            length (snd (render_pixel pf (voxels g1) cam (pixel_ray c (Z.to_nat x) y)
                                      (y * IMG_W + x) a)) = Z.to_nat (IMG_W * IMG_H)) as Hpix
    by (intros x y a _ _ Ha; unfold render_pixel; cbn [snd]; rewrite length_insert; exact Ha).
  specialize (Hkeep Hpix). clear Hpix.
  revert Hst Hlen Htake Hkeep.
  generalize (for_range 0 (Z.to_nat IMG_H)
                (fun y acc => render_row pf (voxels g1) cam (ray_step_x c) (Z.to_nat IMG_W)
                                         (row_first_ray c y) (y * IMG_W) acc) (st0, pixels g1)).
  generalize (for_range 0 (Z.to_nat IMG_H)
                (fun y acc => render_row pf (voxels g1) cam (ray_step_x c) (Z.to_nat IMG_W)
                                         (row_first_ray c y) (y * IMG_W) acc) (st0, pixels g2)).
  intros b2 b1 Hst Hlen Htake Hkeep.
  replace (Z.to_nat (Z.of_nat (Z.to_nat IMG_H) * IMG_W)) with (Z.to_nat (IMG_W * IMG_H)) in Htake
    by (unfold IMG_W, IMG_H; lia).
  rewrite take_ge in Htake by (rewrite Hkeep; reflexivity).
  rewrite take_ge in Htake by (rewrite <- Hlen, Hkeep; reflexivity).
  exists b1. split; [exact Hkeep|]. split; [reflexivity|].
  rewrite <- Hst, <- Htake. reflexivity.
Qed.

Lemma clamp_f32_bounds v lo hi :
  F32.is_nan v = false -> F32.is_nan lo = false -> F32.is_nan hi = false ->
  F32.leb lo hi = true ->
  F32.leb lo (clamp_f32 v lo hi) = true /\ F32.leb (clamp_f32 v lo hi) hi = true.
Proof.
  intros Nv Nlo Nhi Hb. unfold clamp_f32.
  destruct (F32.ltb v lo) eqn:E1.
  - split; [apply leb_key; try assumption; apply key_le_refl|assumption].
  - destruct (F32.ltb hi v) eqn:E2.
    + split; [assumption|apply leb_key; try assumption; apply key_le_refl].
    + split; apply ltb_false_leb; assumption.
Qed.

Lemma update_timers_fields g dt :
  pixels (update_timers g dt) = pixels g /\
  voxels (update_timers g dt) = voxels g /\
  freeze_camera (update_timers g dt) = freeze_camera g /\
  time_s (update_timers g dt) =
    (if freeze_camera g then time_s g else F32.add (time_s g) dt).
Proof. unfold update_timers. cbn. destruct (freeze_camera g); repeat split; reflexivity. Qed.

(** The frame loop of [main] (lines 484-520), frozen camera: while the
    camera is frozen the scene time does not advance, and a further
    frame reproduces the pixel buffer and the counters of the previous
    one, whatever the two frame times are; only the throughput figures
    follow the frame time. *)
Theorem frozen_frames_repeat (pf : Platform) (g : AppState)
    (ft1 ft2 : float) (q1 f2 q2 : bool) :
  freeze_camera g = true ->
  length (pixels g) = Z.to_nat (IMG_W * IMG_H) ->
  let g1 := frame_iteration pf g ft1 false q1 in
  let g2 := frame_iteration pf g1 ft2 f2 q2 in
  time_s g1 = time_s g /\ time_s g2 = time_s g /\
  pixels g2 = pixels g1 /\
  rays_entered_grid (frame_stats g2) = rays_entered_grid (frame_stats g1) /\
  hits (frame_stats g2) = hits (frame_stats g1) /\
  total_steps (frame_stats g2) = total_steps (frame_stats g1) /\
  max_steps (frame_stats g2) = max_steps (frame_stats g1) /\
  avg_steps_per_ray (frame_stats g2) = avg_steps_per_ray (frame_stats g1) /\
  hit_ratio (frame_stats g2) = hit_ratio (frame_stats g1).
Proof.
  intros Hfr Hlen g1 g2.
  destruct (frame_iteration_fields pf g ft1 false q1) as (P1 & S1 & V1 & T1 & _ & F1 & _).
  destruct (frame_iteration_fields pf g1 ft2 f2 q2) as (P2 & S2 & V2 & T2 & _ & _ & _).
  fold g1 in P1, S1, V1, T1, F1. fold g2 in P2, S2, V2, T2.
  destruct (update_timers_fields g (frame_dt ft1)) as (Up1 & Uv1 & Uf1 & Ut1).
  destruct (update_timers_fields g1 (frame_dt ft2)) as (Up2 & Uv2 & Uf2 & Ut2).
  rewrite Hfr in Ut1, F1, Uf1. cbn [xorb] in F1. rewrite F1 in Ut2, Uf2.
  set (h1 := update_timers g (frame_dt ft1)) in *.
  set (h2 := update_timers g1 (frame_dt ft2)) in *.
  assert (length (pixels h1) = Z.to_nat (IMG_W * IMG_H)) as L1 by (rewrite Up1; exact Hlen).
  assert (camera_position pf (time_s h1) (freeze_camera h1) =
          camera_position pf (time_s h2) (freeze_camera h2)) as Hcam
    by (rewrite Uf1, Uf2; apply camera_position_frozen).
  destruct (render_same_scene pf h1 h1 (frame_dt ft1) (frame_dt ft1) L1 L1 eq_refl eq_refl)
    as (a0 & La0 & E0 & _).
  assert (length (pixels h2) = Z.to_nat (IMG_W * IMG_H)) as L2.
  { rewrite Up2, P1, E0. cbn [fst pixels with_pixels]. exact La0. }
  assert (voxels h1 = voxels h2) as Hvox by (rewrite Uv1, Uv2, V1; reflexivity).
  destruct (render_same_scene pf h1 h2 (frame_dt ft1) (frame_dt ft2) L1 L2 Hvox Hcam)
    as (a & La & E1 & E2).
  rewrite E1 in P1, S1. rewrite E2 in P2, S2. cbn [fst snd pixels with_pixels] in P1, S1, P2, S2.
  rewrite T1, T2, Ut1, Ut2, T1, Ut1, P1, P2, S1, S2.
  destruct (finish_stats_counters (fst a) (frame_dt ft1)) as (A1 & A2 & A3 & A4 & A5).
  destruct (finish_stats_counters (fst a) (frame_dt ft2)) as (B1 & B2 & B3 & B4 & B5).
  rewrite A1, A2, A3, A4, B1, B2, B3, B4.
  split; [reflexivity|]. split; [reflexivity|]. split; [reflexivity|].
  split; [reflexivity|]. split; [reflexivity|]. split; [reflexivity|]. split; [reflexivity|].
  unfold finish_stats.
  destruct (rays (fst a) >? 0); destruct (F32.ltb Lit.f_1em6 (frame_dt ft1));
    destruct (F32.ltb Lit.f_1em6 (frame_dt ft2)); split; reflexivity.
Qed.

Lemma frozen_frames_repeat_witness :
  freeze_camera Demo.scene_stale = true /\
  length (pixels Demo.scene_stale) = Z.to_nat (IMG_W * IMG_H) /\
  pixels (frame_iteration Demo.platform
            (frame_iteration Demo.platform Demo.scene_stale Demo.dt_64 false false)
            Demo.dt_32 true false) =
  pixels (frame_iteration Demo.platform Demo.scene_stale Demo.dt_64 false false).
Proof.
  pose proof (frozen_frames_repeat Demo.platform Demo.scene_stale Demo.dt_64 Demo.dt_32
                false true false eq_refl (length_replicate _ _)) as (_ & _ & Hp & _).
  split; [reflexivity|]. split; [apply length_replicate|exact Hp].
Defined.

(** The frame loop of [main] (lines 485-502), frame time: for a frame
    time that is a number, the clamped [dt] lies in [1e-5, 0.25], so the
    throughput guard [dt > 1e-6] of the renderer always passes: the stats
    stored for the overlay carry rays / dt and steps / dt, never the zero
    fallback, and [frame_ms] is dt * 1000. *)
Theorem frame_time_is_clamped (pf : Platform) (g : AppState) (ft : float) (fp qp : bool) :
  F32.is_nan ft = false ->
  let dt := frame_dt ft in
  let g' := frame_iteration pf g ft fp qp in
  F32.leb Lit.f_1em5 dt = true /\ F32.leb dt Lit.f_0_25 = true /\
  F32.ltb Lit.f_1em6 dt = true /\
  frame_ms g' = F32.mul dt Lit.f_1000 /\
  rays_per_sec (frame_stats g') = F32.div (F32.of_int 57600) dt /\
  steps_per_sec (frame_stats g') = F32.div (F32.of_int (total_steps (frame_stats g'))) dt.
Proof.
  intros Nft dt g'.
  destruct (clamp_f32_bounds ft Lit.f_1em5 Lit.f_0_25 Nft eq_refl eq_refl eq_refl)
    as [Hlo Hhi]. fold (frame_dt ft) in Hlo, Hhi. fold dt in Hlo, Hhi.
  assert (F32.ltb Lit.f_1em6 dt = true) as Hgt.
  { destruct (leb_true_not_nan _ _ Hlo) as [_ Ndt].
    apply ltb_key; [reflexivity|exact Ndt|].
    apply leb_key in Hlo; [|reflexivity|exact Ndt].
    change (ord_key Lit.f_1em5) with (1, -40, 10995116) in Hlo.
    change (ord_key Lit.f_1em6) with (1, -43, 8796093).
    destruct (ord_key dt) as [[k1 k2] k3]. rewrite key_le_unfold in Hlo.
    unfold key_lt. lia. }
  destruct (frame_iteration_fields pf g ft fp qp) as (_ & S & _ & _ & M & _).
  fold dt in S, M. fold g' in S, M.
  destruct (render_throughput pf (update_timers g dt) dt) as (Hr & Hp & Hs).
  rewrite <- S in Hr, Hp, Hs. rewrite Hgt in Hp, Hs.
  repeat split; assumption.
Qed.

Lemma frame_time_is_clamped_witness :
  F32.is_nan Lit.f_0 = false /\
  frame_dt Lit.f_0 = Lit.f_1em5 /\
  F32.ltb Lit.f_1em6 (frame_dt Lit.f_0) = true.
Proof.
  pose proof (frame_time_is_clamped Demo.platform Demo.scene Lit.f_0 false false eq_refl)
    as (_ & _ & Hgt & _).
  split; [reflexivity|]. split; [reflexivity|exact Hgt].
Defined.

(** The frame loop of [main] and the buttons of [draw_overlay] (lines
    461-466): an iteration never changes the voxel grid; it advances the
    scene time by [dt] unless the camera is frozen; the freeze button
    toggles the flag; a quit request, once set, stays set. *)
Theorem frame_iteration_controls (pf : Platform) (g : AppState) (ft : float) (fp qp : bool) :
  let g' := frame_iteration pf g ft fp qp in
  voxels g' = voxels g /\
  time_s g' = (if freeze_camera g then time_s g else F32.add (time_s g) (frame_dt ft)) /\
  freeze_camera g' = (if fp then negb (freeze_camera g) else freeze_camera g) /\
  request_quit g' = request_quit g || qp /\
  (request_quit g = true -> request_quit g' = true).
Proof.
  cbv zeta.
  destruct (frame_iteration_fields pf g ft fp qp) as (_ & _ & V & T & _ & F & Q).
  destruct (update_timers_fields g (frame_dt ft)) as (_ & _ & _ & Ut).
  rewrite V, T, Ut, F, Q.
  split; [reflexivity|]. split; [reflexivity|].
  split; [destruct fp, (freeze_camera g); reflexivity|].
  split; [reflexivity|]. intros ->. reflexivity.
Qed.

(** ** Shading of a hit *)

Lemma dda_advance_unit_normal r s : unit_step r -> unit_normal (normal (dda_advance r s)).
Proof.
  intros (Hx & Hy & Hz). unfold unit_normal, dda_advance.
  destruct (dda_axis s); cbn [normal ix iy iz]; lia.
Qed.

Lemma dda_advance_normal r s :
  normal (dda_advance r (count_step s)) = face_normal r (dda_axis s).
Proof.
  unfold dda_advance. change (dda_axis (count_step s)) with (dda_axis s).
  destruct (dda_axis s); reflexivity.
Qed.

Lemma dda_state_after_normal r k :
  forall s, normal (dda_state_after r (S k) s) =
            face_normal r (dda_axis (dda_state_after r k s)).
Proof.
  induction k as [|k IH]; intros s.
  - apply dda_advance_normal.
  - change (dda_state_after r (S (S k)) s)
      with (dda_state_after r (S k) (dda_advance r (count_step s))).
    rewrite IH. reflexivity.
Qed.

Lemma dda_loop_hit_state vox r n :
  forall s,
    let out := dda_loop vox r n s in
    hit (result out) = true ->
    exists k,
      (k < n)%nat /\
      steps (result out) = nsteps s + Z.of_nat k + 1 /\
      (forall j, (j < k)%nat ->
         read_voxel vox (cell_index (dda_state_after r j s)) = 0) /\
      loop_exit r (dda_state_after r k s) = false /\
      last (loads (events out)) = Some (cell_index (dda_state_after r k s)) /\
      read_voxel vox (cell_index (dda_state_after r k s)) <> 0 /\
      col (result out) =
        shade_hit (read_voxel vox (cell_index (dda_state_after r k s)))
                  (normal (dda_state_after r k s)) (cell_y (dda_state_after r k s)).
Proof.
  induction n as [|n IH]; intros s; cbv zeta.
  - simpl. discriminate.
  - destruct (dda_loop_cases vox r n s) as [[_ E]|[(Hex & Hnz & E)|(Hex & Hz & E)]]; rewrite E.
    + unfold result; simpl. discriminate.
    + intros _. unfold result, events. cbn [fst snd loads col steps last].
      exists 0%nat. cbn [dda_state_after].
      split; [lia|]. split; [lia|]. split; [intros j Hj; lia|].
      split; [exact Hex|]. split; [reflexivity|]. split; [exact Hnz|reflexivity].
    + specialize (IH (dda_advance r (count_step s))). cbv zeta in IH.
      rewrite dda_advance_nsteps in IH. revert IH.
      generalize (result (dda_loop vox r n (dda_advance r (count_step s)))).
      generalize (events (dda_loop vox r n (dda_advance r (count_step s)))).
      intros ev' res' IH. unfold result, events. cbn [fst snd loads].
      intros Hh. destruct (IH Hh) as (k & Hk & Hs & Hbefore & Hin & Hl & Hrest).
      exists (S k). cbn [dda_state_after].
      split; [lia|]. split; [cbn [nsteps count_step] in Hs; lia|]. split.
      { intros [|j] Hj; [exact Hz|]. cbn [dda_state_after]. apply Hbefore. lia. }
      split; [exact Hin|]. split; [|exact Hrest].
      destruct (loads ev') as [|i t]; [discriminate|]. rewrite last_cons, Hl. reflexivity.
Qed.

(** [trace_ray_amanatides_woo] (lines 252-296), shading: a hit is found
    at some iteration [k] (0-based, [k + 1] steps are reported) after
    [k] empty cells.  Its colour is the shade of the material read at
    the current cell, which lies inside the grid and is the last voxel
    read, for the height [cell_y] of that very cell and the normal
    recorded on arrival: the initial (0, 1, 0) when the entry cell is
    hit ([k = 0]), otherwise the negated step along the axis chosen by
    the advance of the previous iteration, zero on the two other axes. *)
Theorem trace_hit_is_shaded (pf : Platform) (vox : list Z) (ro rd : Vector3 float) :
  let out := trace_ray_amanatides_woo pf vox ro rd in
  hit (result out) = true ->
  exists t0 t1 k,
    result (ray_aabb ro rd) = Some (t0, t1) /\
    let r := fst (result (dda_init pf ro rd t0 t1)) in
    let s0 := snd (result (dda_init pf ro rd t0 t1)) in
    let sh := dda_state_after r k s0 in
    (k < 256)%nat /\
    steps (result out) = Z.of_nat k + 1 /\
    (forall j, (j < k)%nat ->
       read_voxel vox (cell_index (dda_state_after r j s0)) = 0) /\
    inside_grid (cell_x sh) (cell_y sh) (cell_z sh) = true /\
    last (loads (events out)) = Some (cell_index sh) /\
    read_voxel vox (cell_index sh) <> 0 /\
    col (result out) =
      shade_hit (read_voxel vox (cell_index sh)) (normal sh) (cell_y sh) /\
    normal sh =
      match k with
      | O => mkIV3 0 1 0
      | S k' => face_normal r (dda_axis (dda_state_after r k' s0))
      end /\
    unit_normal (normal sh) /\
    0 <= cell_y sh < GRID_Y.
Proof.
  cbv zeta. unfold trace_ray_amanatides_woo.
  rewrite result_bind, events_bind, loads_app, ray_aabb_loads. cbn [app].
  destruct (result (ray_aabb ro rd)) as [[t0 t1]|]; [|discriminate].
  rewrite result_bind, events_bind, loads_app, dda_init_loads. cbn [app].
  pose proof (dda_init_unit_step pf ro rd t0 t1) as Hu.
  pose proof (dda_init_state pf ro rd t0 t1) as (_ & _ & _ & _ & Hn0 & Hnorm).
  intros Hh. exists t0, t1.
  destruct (result (dda_init pf ro rd t0 t1)) as [r s]. cbn [fst snd] in *.
  destruct (dda_loop_hit_state vox r 256 s Hh)
    as (k & Hk & Hs & Hbefore & Hin & Hl & Hnz & Hcol).
  exists k. split; [reflexivity|].
  assert (normal (dda_state_after r k s) =
          match k with
          | O => mkIV3 0 1 0
          | S k' => face_normal r (dda_axis (dda_state_after r k' s))
          end) as Hnrm.
  { destruct k as [|k']; [exact Hnorm|apply dda_state_after_normal]. }
  unfold loop_exit in Hin. apply orb_false_iff in Hin as [Hin _].
  apply negb_false_iff in Hin.
  split; [exact Hk|]. split; [lia|]. split; [exact Hbefore|]. split; [exact Hin|].
  split; [exact Hl|]. split; [exact Hnz|]. split; [exact Hcol|]. split; [exact Hnrm|].
  split.
  - rewrite Hnrm. destruct k as [|k']; [reflexivity|].
    destruct Hu as (Hx & Hy & Hz). unfold unit_normal, face_normal.
    destruct (dda_axis _); cbn [ix iy iz]; lia.
  - apply inside_grid_spec in Hin. lia.
Qed.

Lemma trace_hit_is_shaded_witness :
  hit (result (trace_ray_amanatides_woo Demo.platform (voxels Demo.scene)
                 Demo.low_origin Demo.low_dir)) = true /\
  exists k sh,
    steps (result (trace_ray_amanatides_woo Demo.platform (voxels Demo.scene)
                     Demo.low_origin Demo.low_dir)) = Z.of_nat k + 1 /\
    read_voxel (voxels Demo.scene) (cell_index sh) <> 0 /\
    col (result (trace_ray_amanatides_woo Demo.platform (voxels Demo.scene)
                   Demo.low_origin Demo.low_dir)) =
      shade_hit (read_voxel (voxels Demo.scene) (cell_index sh)) (normal sh) (cell_y sh).
Proof.
  assert (hit (result (trace_ray_amanatides_woo Demo.platform (voxels Demo.scene)
                         Demo.low_origin Demo.low_dir)) = true) as Hh
    by (vm_compute; reflexivity).
  split; [exact Hh|].
  destruct (trace_hit_is_shaded Demo.platform (voxels Demo.scene)
              Demo.low_origin Demo.low_dir Hh)
    as (t0 & t1 & k & _ & _ & Hs & _ & _ & _ & Hnz & Hcol & _).
  exists k, (dda_state_after (fst (result (dda_init Demo.platform Demo.low_origin
                                              Demo.low_dir t0 t1))) k
               (snd (result (dda_init Demo.platform Demo.low_origin Demo.low_dir t0 t1)))).
  split; [exact Hs|]. split; [exact Hnz|exact Hcol].
Defined.
